(** * pyssa: adaptive tau-leaping (src/pyssa/tau_adaptive.py)

    A shallow embedding of [get_HOR] and [tau_adaptive].

    Numbers.  The source computes with numpy float64 arrays.  A float is
    modelled by [f64]: a finite value is an exact rational (neither rounding
    nor overflow is modelled), and the IEEE infinities and NaN are kept, because the source
    divides by zero on purpose (a zero drift gives an infinite candidate leap)
    and by accident.  Zeros are unsigned; every zero divisor the source can
    produce is a positive zero (a difference of equal values or an absolute
    value).

    Collaborators.  [get_kstoc], [roulette_selection] and [direct_naive] live
    in modules that are not part of the sources at hand, and the numpy random
    generator and [np.log] are library code.  They are Section variables of
    [Engine]; every statement about a run names what it needs from them, and
    the module [Scripted] gives one concrete choice on which the statements
    are run.  [Process] starts a call inside a process whose random state
    may hold more than the generator that [np.random.seed] resets. *)

From Stdlib Require Import ZArith QArith Qabs Qround List Bool Lia.
Import ListNotations.

Local Open Scope Z_scope.

(* ------------------------------------------------------------------ *)
(** * Floats *)

Module F64.

Inductive f64 : Type :=
| Fin (q : Q)
| PInf
| NInf
| NaN.

Definition of_Z (z : Z) : f64 := Fin (inject_Z z).

Definition Qlt_bool (a b : Q) : bool := negb (Qle_bool b a).

(** Sign of a rational: its numerator's. *)
Definition Qsgn (q : Q) : comparison := Z.compare (Qnum q) 0.

Definition fneg (a : f64) : f64 :=
  match a with
  | Fin q => Fin (Qred (Qopp q))
  | PInf => NInf
  | NInf => PInf
  | NaN => NaN
  end.

Definition fadd (a b : f64) : f64 :=
  match a, b with
  | NaN, _ | _, NaN => NaN
  | Fin p, Fin q => Fin (Qred (Qplus p q))
  | PInf, NInf | NInf, PInf => NaN
  | PInf, _ | _, PInf => PInf
  | NInf, _ | _, NInf => NInf
  end.

Definition fsub (a b : f64) : f64 := fadd a (fneg b).

(** An infinity scaled by a finite factor. *)
Definition scale_inf (positive : bool) (q : Q) : f64 :=
  match Qsgn q with
  | Eq => NaN
  | Gt => if positive then PInf else NInf
  | Lt => if positive then NInf else PInf
  end.

Definition fmul (a b : f64) : f64 :=
  match a, b with
  | NaN, _ | _, NaN => NaN
  | Fin p, Fin q => Fin (Qred (Qmult p q))
  | PInf, Fin q | Fin q, PInf => scale_inf true q
  | NInf, Fin q | Fin q, NInf => scale_inf false q
  | PInf, PInf | NInf, NInf => PInf
  | PInf, NInf | NInf, PInf => NInf
  end.

(** numpy true division: a finite nonzero value over zero is an infinity
    (with a RuntimeWarning, not an exception), zero over zero is NaN. *)
Definition fdiv (a b : f64) : f64 :=
  match a, b with
  | NaN, _ | _, NaN => NaN
  | Fin p, Fin q =>
      match Qsgn q with
      | Eq => match Qsgn p with Eq => NaN | Gt => PInf | Lt => NInf end
      | _ => Fin (Qred (Qdiv p q))
      end
  | Fin _, (PInf | NInf) => Fin 0
  | PInf, Fin q => match Qsgn q with Lt => NInf | _ => PInf end
  | NInf, Fin q => match Qsgn q with Lt => PInf | _ => NInf end
  | (PInf | NInf), (PInf | NInf) => NaN
  end.

Definition fabs (a : f64) : f64 :=
  match a with
  | Fin q => Fin (Qred (Qabs q))
  | PInf | NInf => PInf
  | NaN => NaN
  end.

(** [a < b]; every comparison with NaN is false. *)
Definition flt (a b : f64) : bool :=
  match a, b with
  | NaN, _ | _, NaN => false
  | Fin p, Fin q => Qlt_bool p q
  | _, NInf => false
  | NInf, _ => true
  | PInf, _ => false
  | Fin _, PInf => true
  end.

Definition fgt (a b : f64) : bool := flt b a.

(** [a == b]. *)
Definition feqb (a b : f64) : bool :=
  match a, b with
  | Fin p, Fin q => Qeq_bool p q
  | PInf, PInf | NInf, NInf => true
  | _, _ => false
  end.

Definition is_nan (a : f64) : bool :=
  match a with NaN => true | _ => false end.

Fixpoint fpow_pos (a : f64) (n : nat) : f64 :=
  match n with
  | O => Fin 1
  | S n' => fmul a (fpow_pos a n')
  end.

(** [np.power(a, e)] for a float base and an integer exponent;
    anything to the power 0 is 1. *)
Definition fpow (a : f64) (e : Z) : f64 :=
  if e <? 0 then fdiv (Fin 1) (fpow_pos a (Z.to_nat (- e)))
  else fpow_pos a (Z.to_nat e).

(** Python's builtin [max(a, b)]: [b] when [b > a], else [a]. *)
Definition py_max (a b : f64) : f64 := if fgt b a then b else a.

(** Python's builtin [min] on two integers. *)
Definition py_min (a b : nat) : nat := Nat.min a b.

End F64.
Export F64.

(* ------------------------------------------------------------------ *)
(** * numpy on lists *)

Module Np.

Definition matrix := list (list Z).

(** [m.shape[1]] of a rectangular matrix given by its rows. *)
Definition shape1 (m : matrix) : nat :=
  match m with [] => O | r :: _ => length r end.

Definition zsum (l : list Z) : Z := fold_left Z.add l 0.

Definition column (m : matrix) (j : nat) : list Z :=
  map (fun row => nth j row 0) m.

(** [np.sum(m, axis=0)]: one sum per column. *)
Definition sum_axis0 (m : matrix) : list Z :=
  map (fun j => zsum (column m j)) (seq 0 (shape1 m)).

(** [np.sum(m, axis=1)]: one sum per row. *)
Definition sum_axis1 (m : matrix) : list Z := map zsum m.

(** [np.where(mask)[0]]: the positions where the mask holds. *)
Fixpoint where_from (i : nat) (mask : list bool) : list nat :=
  match mask with
  | [] => []
  | b :: r => if b then i :: where_from (S i) r else where_from (S i) r
  end.

Definition where_ (mask : list bool) : list nat := where_from 0 mask.

(** [a[idx]] for an index array. *)
Definition take {A} (d : A) (a : list A) (idx : list nat) : list A :=
  map (fun i => nth i a d) idx.

(** [a[mask]] for a boolean mask. *)
Definition select {A} (a : list A) (mask : list bool) : list A :=
  map fst (filter snd (combine a mask)).

(** [np.max] of an integer array; numpy raises on an empty one, and each
    call in [get_HOR] is guarded so that it is never empty. *)
Definition np_max (l : list Z) : Z :=
  match l with [] => 0 | a :: r => fold_left Z.max r a end.

(** [np.sum] of a float array. *)
Definition fsum (l : list f64) : f64 := fold_left fadd l (Fin 0).

Definition fmin (a b : f64) : f64 := if flt b a then b else a.

(** [np.nanmin]: the minimum of the entries that are not NaN; NaN when all
    are; [None] stands for the ValueError numpy raises on an empty array. *)
Definition nanmin (l : list f64) : option f64 :=
  match l with
  | [] => None
  | _ =>
      match filter (fun a => negb (is_nan a)) l with
      | [] => Some NaN
      | a :: r => Some (fold_left fmin r a)
      end
  end.

(** A matrix as numpy holds it: every row has [shape[1]] entries. *)
Definition rectangular (m : matrix) : Prop :=
  Forall (fun row => length row = shape1 m) m.

(** Stoichiometric coefficients: no negative entry. *)
Definition nonnegative (m : matrix) : Prop :=
  Forall (Forall (fun c => 0 <= c)) m.

End Np.
Export Np.

(* ------------------------------------------------------------------ *)
(** * get_HOR *)

Module HOR.

(** The classification of one species, [row = react_stoic[ind, :]].
    The test [if np.where(orders == 3):] is on a one-element tuple, which is
    true whatever it holds, so the last two tests always run.  They index the
    full row with positions found in [this_orders], the filtered array. *)
Definition HOR_of (orders row : list Z) : Z :=
  let this_orders := take 0 orders (where_ (map (fun c => 0 <? c) row)) in
  if (length this_orders =? 0)%nat then 0
  else
    let h := np_max this_orders in
    if h =? 1 then h
    else
      let order_2_indices := where_ (map (fun o => o =? 2) orders) in
      let h :=
        if (0 <? length order_2_indices)%nat
        then if (np_max (take 0 row order_2_indices) =? 2) && (h =? 2)
             then -2 else h
        else h in
      let at_3 := take 0 row (where_ (map (fun o => o =? 3) this_orders)) in
      if (h =? 3) && (np_max at_3 =? 2) then -32
      else if (h =? 3) && (np_max at_3 =? 3) then -3
      else h.

Definition get_HOR (react_stoic : matrix) : list Z :=
  let orders := sum_axis0 react_stoic in
  map (HOR_of orders) react_stoic.

(** What the documentation of [get_HOR] promises for one species: the
    highest order among the reactions it is a reactant of, replaced by a code
    when the species appears twice or thrice in a reaction of that order. *)
Definition HOR_documented (orders row : list Z) : Z :=
  let mine := filter (fun oc => 0 <? snd oc) (combine orders row) in
  match mine with
  | [] => 0
  | _ =>
      let h := np_max (map fst mine) in
      let has o c := existsb (fun oc => (fst oc =? o) && (snd oc =? c)) mine in
      if (h =? 2) && has 2 2 then -2
      else if (h =? 3) && has 3 2 then -32
      else if (h =? 3) && has 3 3 then -3
      else h
  end.

Definition get_HOR_documented (react_stoic : matrix) : list Z :=
  map (HOR_documented (sum_axis0 react_stoic)) react_stoic.

End HOR.
Export HOR.

(* ------------------------------------------------------------------ *)
(** * One iteration of tau_adaptive: the parts without randomness *)

Module Leap.

Definition epsilon : f64 := Fin (3 # 100).
Definition HIGH : f64 := Fin (inject_Z (10 ^ 20)).
Definition tiny : f64 := Fin (1 # (10 ^ 30)).

Fixpoint map2 {A B C} (f : A -> B -> C) (a : list A) (b : list B) : list C :=
  match a, b with
  | p :: a', q :: b' => f p q :: map2 f a' b'
  | _, _ => []
  end.

(** [v = prod_stoic - react_stoic]. *)
Definition net_stoic (react_stoic prod_stoic : matrix) : matrix :=
  map2 (map2 (fun r p => p - r)) react_stoic prod_stoic.

(** The inner loop over [ind2]: [prop[ind1] *= np.power(x[ind2],
    react_stoic[ind2, ind1])], species in order. *)
Definition propensity (react_stoic : matrix) (x : list f64) (j : nat)
    (k : f64) : f64 :=
  fold_left (fun p rx => fmul p (fpow (snd rx) (nth j (fst rx) 0)))
            (combine react_stoic x) k.

(** The propensity vector; [kstoc] holds one constant per reaction. *)
Definition propensities (react_stoic : matrix) (kstoc x : list f64)
    : list f64 :=
  map (fun j => propensity react_stoic x j (nth j kstoc (Fin 0)))
      (seq 0 (shape1 react_stoic)).

(** The factors [np.power(x[ind2], react_stoic[ind2, ind1])] of reaction
    [j], in the order of the inner loop. *)
Definition factors (react_stoic : matrix) (x : list f64) (j : nat)
    : list f64 :=
  map (fun rx => fpow (snd rx) (nth j (fst rx) 0)) (combine react_stoic x).

(** Every value [prop[ind1]] holds while the factors [fs] are multiplied
    in, the starting value first. *)
Fixpoint products (p : f64) (fs : list f64) : list f64 :=
  p :: match fs with
       | [] => []
       | f :: r => products (fmul p f) r
       end.

(** The values [prop[ind1]] goes through for reaction [j]: the rate
    constant, then one product per species. *)
Definition propensity_trace (react_stoic : matrix) (x : list f64) (j : nat)
    (k : f64) : list f64 :=
  products k (factors react_stoic x j).



(** The quotients [x[vis < 0] / abs(vis[vis < 0])] of reaction [j]. *)
Definition quotients (v : matrix) (x : list f64) (j : nat) : list f64 :=
  let vis := column v j in
  let mask := map (fun c => c <? 0) vis in
  map2 fdiv (select x mask) (map (fun c => of_Z (Z.abs c)) (select vis mask)).

(** [L[ind] = np.nanmin(...)]; [None] is numpy's ValueError. *)
Definition L_of (v : matrix) (x : list f64) (j : nat) : option f64 :=
  nanmin (quotients v x j).

Fixpoint all_some {A} (l : list (option A)) : option (list A) :=
  match l with
  | [] => Some []
  | None :: _ => None
  | Some a :: r =>
      match all_some r with Some r' => Some (a :: r') | None => None end
  end.

Definition L_vector (v : matrix) (x : list f64) (nr : nat)
    : option (list f64) :=
  all_some (map (L_of v x) (seq 0 nr)).

(** [crit = (L < nc) * (prop > 0)]. *)
Definition critical (nc : Z) (l p : f64) : bool :=
  flt l (of_Z nc) && fgt p (Fin 0).

Definition crit (nc : Z) (L prop : list f64) : list bool :=
  map2 (critical nc) L prop.

(** [x is not 1] between a numpy float64 scalar and an integer literal
    compares object identity: the two are never the same object. *)
Definition is_not_literal (a : f64) (n : Z) : bool := true.

(** [x not in [1, 2]] compares with [==]. *)
Definition not_in (a : f64) (l : list Z) : bool :=
  negb (existsb (fun n => feqb a (of_Z n)) l).

(** The if/elif chain that sets [g]; [g] keeps its earlier value (or stays
    unbound) when no branch applies. *)
Definition g_factor (hor : Z) (xi : f64) (g : option f64) : option f64 :=
  if 0 <? hor then Some (of_Z hor)
  else if hor =? -2 then
    if is_not_literal xi 1
    then Some (fadd (Fin 1) (fdiv (Fin 2) (fsub xi (Fin 1))))
    else Some (Fin 2)
  else if hor =? -3 then
    if not_in xi [1; 2]
    then Some (fadd (fadd (Fin 3) (fdiv (Fin 1) (fsub xi (Fin 1))))
                    (fdiv (Fin 2) (fsub xi (Fin 2))))
    else Some (Fin 3)
  else if hor =? -32 then
    if is_not_literal xi 1
    then Some (fmul (fdiv (Fin 3) (Fin 2))
                    (fadd (Fin 2) (fdiv (Fin 1) (fsub xi (Fin 1)))))
    else Some (Fin 3)
  else g.

(** [max(epsilon * x / g, 1)]. *)
Definition bound (xi g : f64) : f64 :=
  py_max (fdiv (fmul epsilon xi) g) (Fin 1).

(** What the loop over [react_species] has filled in so far. *)
Record moments : Type := {
  mup : list f64;
  sigp : list f64;
  tau_num : list f64;
  g_now : option f64
}.

(** One pass of the loop body for species [s]; [None] is the
    UnboundLocalError of reading [g] before any branch has set it. *)
Definition species_pass (v : matrix) (HOR : list Z) (x prop : list f64)
    (not_crit : list bool) (acc : moments) (s : nat) : option moments :=
  let vs := map of_Z (select (nth s v []) not_crit) in
  let temp := map2 fmul vs (select prop not_crit) in
  let xi := nth s x (Fin 0) in
  match g_factor (nth s HOR 0) xi (g_now acc) with
  | None => None
  | Some g =>
      Some {| mup := mup acc ++ [fsum temp];
              sigp := sigp acc ++ [fsum (map2 fmul vs temp)];
              tau_num := tau_num acc ++ [bound xi g];
              g_now := Some g |}
  end.

Fixpoint species_loop (v : matrix) (HOR : list Z) (x prop : list f64)
    (not_crit : list bool) (acc : moments) (ss : list nat) : option moments :=
  match ss with
  | [] => Some acc
  | s :: ss' =>
      match species_pass v HOR x prop not_crit acc s with
      | None => None
      | Some acc' => species_loop v HOR x prop not_crit acc' ss'
      end
  end.

Definition react_species (react_stoic : matrix) : list nat :=
  where_ (map (fun s => 0 <? s) (sum_axis1 react_stoic)).

(** [np.nanmin(np.concatenate([tau_num / abs(mup),
    np.power(tau_num, 2) / abs(sigp)]))]. *)
Definition taup_of (m : moments) : option f64 :=
  nanmin (map2 fdiv (tau_num m) (map fabs (mup m))
          ++ map2 fdiv (map (fun a => fpow a 2) (tau_num m))
                       (map fabs (sigp m))).

(** [np.sum(not_crit) == 0]. *)
Definition none_set (mask : list bool) : bool := negb (existsb id mask).

(** [taup < 10 / prop_sum]: the test that sends the iteration to the
    exact engine. *)
Definition small_step (taup prop_sum : f64) : bool :=
  flt taup (fdiv (Fin 10) prop_sum).

(** [np.dot(v, K)]. *)
Definition dot (v : matrix) (K : list Z) : list Z :=
  map (fun row => zsum (map2 Z.mul row K)) v.

(** [x_prev + np.dot(v, K)], stored as it is. *)
Definition apply_K (v : matrix) (x_prev : list f64) (K : list Z)
    : list f64 :=
  map2 fadd x_prev (map of_Z (dot v K)).

(** [a[i] = w] inside the bounds. *)
Fixpoint set_at {A} (i : nat) (w : A) (a : list A) : list A :=
  match a, i with
  | [], _ => []
  | _ :: r, O => w :: r
  | h :: r, S i' => h :: set_at i' w r
  end.

(** [a[i : i + len(b)] = b] when the slice lies inside the buffer. *)
Definition set_slice {A} (i : nat) (b a : list A) : list A :=
  firstn i a ++ b ++ skipn (i + length b) a.

(** [floor] on a float. *)
Definition ffloor (a : f64) : f64 :=
  match a with
  | Fin q => of_Z (Qfloor q)
  | _ => a
  end.

(** The bound [L_j] as the tau-leaping literature words it: the least
    floored quotient.  [L_of] above is what the source computes. *)
Definition L_floored (v : matrix) (x : list f64) (j : nat) : option f64 :=
  nanmin (map ffloor (quotients v x j)).

Definition finite (a : f64) : bool :=
  match a with Fin _ => true | _ => false end.

(** Times that never go down from one point to the next. *)
Fixpoint non_decreasing (l : list f64) : bool :=
  match l with
  | a :: (b :: _) as r => negb (flt b a) && non_decreasing r
  | _ => true
  end.

End Leap.
Export Leap.

(* ------------------------------------------------------------------ *)
(** * tau_adaptive *)

Module Engine.

Inductive exn : Type :=
| IndexError
| ValueError
| UnboundLocalError
| ZeroDivisionError.

(** How a call ends: the returned triple [(t, x, status)], an exception, or
    the model's fuel running out before the loop ends. *)
Inductive run : Type :=
| Returns (t : list f64) (x : list (list f64)) (status : Z)
| Raises (e : exn)
| OutOfFuel.

Section WithCollaborators.

(** The random state the call runs on: numpy's global generator, and
    whatever else the collaborators draw from. *)
Variable rng : Type.
(** The state [np.random.seed(seed)] leaves.  Here it is a function of the
    seed; [Process.tau_adaptive_in] lets it depend on the state the
    process was in. *)
Variable seed_rng : Z -> rng.
(** [np.random.rand()]. *)
Variable rand : rng -> f64 * rng.
(** [np.random.poisson(lam)]; [None] when numpy rejects [lam]. *)
Variable poisson : f64 -> rng -> option Z * rng.
Variable np_log : f64 -> f64.
(** [get_kstoc(react_stoic, k_det, volume, chem_flag)]. *)
Variable get_kstoc : matrix -> list f64 -> f64 -> bool -> list f64.
(** [roulette_selection(prop, x)]: the index it returns (the caller drops
    the second component) and the random state it leaves. *)
Variable roulette_selection : list f64 -> list f64 -> rng -> Z * rng.
(** [direct_naive(react_stoic, prod_stoic, init_state, k_det, max_t,
    max_iter, volume, seed, chem_flag)] and the random state it leaves. *)
Variable direct_naive :
  matrix -> matrix -> list f64 -> list f64 -> f64 -> nat -> f64 -> Z -> bool ->
  rng -> (list f64 * list (list f64) * Z) * rng.

(** The arguments of a call. *)
Record args : Type := {
  react_stoic : matrix;
  prod_stoic : matrix;
  init_state : list Z;
  k_det : list f64;
  nc : Z;
  eps : f64;
  max_t : f64;
  max_iter : nat;
  volume : f64;
  seed : Z;
  chem_flag : bool
}.

(** The variables the while loop carries from one iteration to the next. *)
Record st : Type := {
  ite : nat;
  t : list f64;
  x : list (list f64);
  g : option f64;
  gen : rng
}.

Inductive step : Type :=
| Continue (s : st)
| Done (r : run).

(** The two [for ind in range(M)] loops that fill [K]: a Poisson draw for a
    non-critical reaction, 1 for the critical reaction picked by the roulette
    ([j_crit], absent in the first loop), 0 for the others. *)
Fixpoint fill_K (tau : f64) (j_crit : option Z) (ind : nat)
    (not_crit : list bool) (prop : list f64) (r : rng)
    : option (list Z) * rng :=
  match not_crit, prop with
  | b :: not_crit', p :: prop' =>
      if b then
        match poisson (fmul p tau) r with
        | (None, r') => (None, r')
        | (Some k, r') =>
            match fill_K tau j_crit (S ind) not_crit' prop' r' with
            | (None, r'') => (None, r'')
            | (Some K, r'') => (Some (k :: K), r'')
            end
        end
      else
        let k := match j_crit with
                 | Some j => if Z.of_nat ind =? j then 1 else 0
                 | None => 0
                 end in
        match fill_K tau j_crit (S ind) not_crit' prop' r with
        | (None, r'') => (None, r'')
        | (Some K, r'') => (Some (k :: K), r'')
        end
  | _, _ => (Some [], r)
  end.

(** Step 6 and the exit test: write slot [ite], advance [ite], then read
    [t[ite]] at the advanced index. *)
Definition commit (a : args) (s : st) (tau : f64) (K : list Z) (r : rng)
    : step :=
  let v := net_stoic (react_stoic a) (prod_stoic a) in
  let x' := set_at (ite s) (apply_K v (nth (ite s - 1) (x s) []) K) (x s) in
  let t' := set_at (ite s) (fadd (nth (ite s - 1) (t s) (Fin 0)) tau) (t s) in
  let ite' := S (ite s) in
  match nth_error t' ite' with
  | None => Done (Raises IndexError)
  | Some ti =>
      if fgt ti (max_t a)
      then Done (Returns (firstn ite' t') (firstn ite' x') 2)
      else Continue {| ite := ite'; t := t'; x := x'; g := g s; gen := r |}
  end.

(** Step 4: [taupp = 1 / prop_sum * np.log(1 / u)] for the uniform [u]. *)
Definition taupp_of (prop_sum u : f64) : f64 :=
  fmul (fdiv (Fin 1) prop_sum) (np_log (fdiv (Fin 1) u)).

(** Steps 4 and 5: draw [taupp], pick the interval, sample [K].
    [np.random.rand()] without arguments is a Python float, so [1 / 0.0]
    raises. *)
Definition leap (a : args) (s : st) (prop : list f64) (prop_sum : f64)
    (not_crit : list bool) (taup : f64) : step :=
  let x_prev := nth (ite s - 1) (x s) [] in
  let (u, r1) := rand (gen s) in
  if feqb u (Fin 0) then Done (Raises ZeroDivisionError)
  else
    let taupp := taupp_of prop_sum u in
    if flt taup taupp then
      match fill_K taup None 0 not_crit prop r1 with
      | (None, _) => Done (Raises ValueError)
      | (Some K, r2) => commit a s taup K r2
      end
    else
      let temp := map2 (fun p (b : bool) => if b then Fin 0 else p)
                       prop not_crit in
      let (j_crit, r2) := roulette_selection temp x_prev r1 in
      match fill_K taupp (Some j_crit) 0 not_crit prop r2 with
      | (None, _) => Done (Raises ValueError)
      | (Some K, r3) => commit a s taupp K r3
      end.

(** Whether [x[ite : ite + len, :] = x_ssa] fits: [len] rows of [ns]
    entries.  (numpy would also broadcast a few other shapes; the exact
    engine returns one row per time.) *)
Definition rows_fit (ns len : nat) (x_ssa : list (list f64)) : bool :=
  (length x_ssa =? len)%nat
  && forallb (fun row => (length row =? ns)%nat) x_ssa.

(** Step 3: a burst of the exact engine, copied into the buffers. *)
Definition burst (a : args) (s : st) : step :=
  let x_prev := nth (ite s - 1) (x s) [] in
  let t_prev := nth (ite s - 1) (t s) (Fin 0) in
  let '((t_ssa, x_ssa, status), r') :=
    direct_naive (react_stoic a) (prod_stoic a) x_prev (k_det a)
                 (fsub (max_t a) t_prev)
                 (py_min 100 (max_iter a - ite s))
                 (volume a) (seed a) (chem_flag a) (gen s) in
  let len_simulation := length t_ssa in
  if (max_iter a - ite s <? len_simulation)%nat then Done (Raises ValueError)
  else if negb (rows_fit (length (react_stoic a)) len_simulation x_ssa)
  then Done (Raises ValueError)
  else
    let t' := set_slice (ite s) t_ssa (t s) in
    let x' := set_slice (ite s) x_ssa (x s) in
    if (status =? 3) || (status =? 2) then Done (Returns t' x' status)
    else Continue {| ite := ite s + len_simulation; t := t'; x := x';
                     g := g s; gen := r' |}.

(** Step 2: the candidate [taup], with the value [g] is left with. *)
Definition candidate (a : args) (HOR : list Z) (s : st)
    (prop : list f64) (not_crit : list bool)
    : exn + (f64 * option f64) :=
  let v := net_stoic (react_stoic a) (prod_stoic a) in
  let x_prev := nth (ite s - 1) (x s) [] in
  if none_set not_crit then inr (HIGH, g s)
  else
    match species_loop v HOR x_prev prop not_crit
            {| mup := []; sigp := []; tau_num := []; g_now := g s |}
            (react_species (react_stoic a)) with
    | None => inl UnboundLocalError
    | Some m =>
        match taup_of m with
        | None => inl ValueError
        | Some taup => inr (taup, g_now m)
        end
    end.

(** The body of the while loop. *)
Definition iteration (a : args) (kstoc : list f64) (HOR : list Z) (s : st)
    : step :=
  let v := net_stoic (react_stoic a) (prod_stoic a) in
  let x_prev := nth (ite s - 1) (x s) [] in
  let prop := propensities (react_stoic a) kstoc x_prev in
  let prop_sum := fsum prop in
  if flt prop_sum tiny
  then Done (Returns (firstn (ite s) (t s)) (firstn (ite s) (x s)) 3)
  else
    match L_vector v x_prev (shape1 (react_stoic a)) with
    | None => Done (Raises ValueError)
    | Some L =>
        let not_crit := map negb (crit (nc a) L prop) in
        match candidate a HOR s prop not_crit with
        | inl e => Done (Raises e)
        | inr (taup, g') =>
            let s' := {| ite := ite s; t := t s; x := x s; g := g';
                         gen := gen s |} in
            if small_step taup prop_sum then burst a s'
            else leap a s' prop prop_sum not_crit taup
        end
    end.

(** [while ite < max_iter: ...], then [status = 1]. *)
Fixpoint loop (fuel : nat) (a : args) (kstoc : list f64) (HOR : list Z)
    (s : st) : run :=
  if (ite s <? max_iter a)%nat then
    match fuel with
    | O => OutOfFuel
    | S fuel' =>
        match iteration a kstoc HOR s with
        | Done r => r
        | Continue s' => loop fuel' a kstoc HOR s'
        end
    end
  else Returns (firstn (ite s) (t s)) (firstn (ite s) (x s)) 1.

(** [x[0, :] = init_state.copy()]: a vector of [ns] entries, or a single
    entry that numpy broadcasts; [None] is the ValueError otherwise. *)
Definition first_row (ns : nat) (init : list Z) : option (list f64) :=
  if (length init =? ns)%nat then Some (map of_Z init)
  else match init with
       | [z] => Some (repeat (of_Z z) ns)
       | _ => None
       end.

(** The call.  [ambient] is the random state when the call starts;
    [np.random.seed(seed)] puts [seed_rng seed] in its place. *)
Definition tau_adaptive (fuel : nat) (a : args) (ambient : rng) : run :=
  let ns := length (react_stoic a) in
  match max_iter a with
  | O => Raises IndexError
  | S n =>
      match first_row ns (init_state a) with
      | None => Raises ValueError
      | Some x0 =>
          let x := x0 :: repeat (repeat (Fin 0) ns) n in
          let t := repeat (Fin 0) (S n) in
          let r := seed_rng (seed a) in
          let kstoc := get_kstoc (react_stoic a) (k_det a) (volume a)
                                 (chem_flag a) in
          let HOR := get_HOR (react_stoic a) in
          if flt (fsum kstoc) tiny && fgt (fsum x0) tiny
          then Returns (firstn 1 t) (firstn 1 x) (-2)
          else loop fuel a kstoc HOR
                    {| ite := 1; t := t; x := x; g := None; gen := r |}
      end
  end.

(** The state with which the loop is entered, for [max_iter = S n]. *)
Definition entry_state (a : args) (x0 : list f64) (n : nat) : st :=
  {| ite := 1;
     t := repeat (Fin 0) (S n);
     x := x0 :: repeat (repeat (Fin 0) (length (react_stoic a))) n;
     g := None;
     gen := seed_rng (seed a) |}.

(** The state an iteration hands to step 3 or 4: [g] as step 2 left it. *)
Definition with_g (s : st) (g' : option f64) : st :=
  {| ite := ite s; t := t s; x := x s; g := g'; gen := gen s |}.

(** The slots of [t] from [ite] on still hold the zeros they were created
    with. *)
Definition untouched (m : nat) (s : st) : Prop :=
  length (t s) = m
  /\ forall i, (ite s <= i)%nat -> (i < m)%nat ->
               nth_error (t s) i = Some (Fin 0).

(** The buffers as the loop keeps them: [max_iter] slots each, [ite]
    between 1 and [max_iter], and the first point still the one written at
    entry. *)
Definition well_shaped (a : args) (x0 : list f64) (s : st) : Prop :=
  length (t s) = max_iter a
  /\ length (x s) = max_iter a
  /\ (1 <= ite s <= max_iter a)%nat
  /\ nth_error (t s) 0 = Some (Fin 0)
  /\ nth_error (x s) 0 = Some x0.

(** What a returned pair of arrays looks like: as many states as times,
    between 1 and [m] of them, the first being time 0 and the state [x0]. *)
Definition trajectory_shape (m : nat) (x0 : list f64) (ts : list f64)
    (xs : list (list f64)) : Prop :=
  length ts = length xs
  /\ (1 <= length ts <= m)%nat
  /\ nth_error ts 0 = Some (Fin 0)
  /\ nth_error xs 0 = Some x0.

(** A run of the model that came to an end, by a return or an exception. *)
Definition ended (r : run) : bool :=
  match r with OutOfFuel => false | _ => true end.

(** The same call with another value for the argument [eps]. *)
Definition with_eps (a : args) (e : f64) : args :=
  {| react_stoic := react_stoic a; prod_stoic := prod_stoic a;
     init_state := init_state a; k_det := k_det a; nc := nc a;
     eps := e; max_t := max_t a; max_iter := max_iter a;
     volume := volume a; seed := seed a; chem_flag := chem_flag a |}.

End WithCollaborators.

Arguments ite {rng} _.
Arguments t {rng} _.
Arguments x {rng} _.
Arguments g {rng} _.
Arguments gen {rng} _.
Arguments Build_st {rng} _ _ _ _ _.
Arguments Continue {rng} _.
Arguments Done {rng} _.
Arguments with_g {rng} _ _.
Arguments untouched {rng} _ _.
Arguments well_shaped {rng} _ _ _.

End Engine.

(* ------------------------------------------------------------------ *)
(** * A scripted set of collaborators

    One concrete choice of the collaborators, used to run the engine on
    examples: a generator that counts its draws, always draws the uniform
    1/2 and the Poisson count 1, a roulette that picks reaction 0, a
    logarithm tabulated at 2, rate constants passed through unchanged (unit
    volume, first order), and an exact engine that records its starting point
    at its own time 0 and reports the time budget as crossed. *)

Module Scripted.
Import Engine.

Definition rng : Type := nat.
Definition seed_rng (seed : Z) : rng := O.
Definition rand (r : rng) : f64 * rng := (Fin (1 # 2), S r).
Definition poisson (lam : f64) (r : rng) : option Z * rng :=
  (if flt lam (Fin 0) || is_nan lam then None else Some 1, S r).
Definition np_log (a : f64) : f64 :=
  if feqb a (Fin 2) then Fin (693147 # 1000000) else Fin 0.
Definition get_kstoc (react : matrix) (k : list f64) (vol : f64)
    (flag : bool) : list f64 := k.
Definition roulette_selection (p x : list f64) (r : rng) : Z * rng :=
  (0, S r).
Definition direct_naive (react prod : matrix) (init k : list f64)
    (max_t : f64) (max_iter : nat) (vol : f64) (seed : Z) (flag : bool)
    (r : rng) : (list f64 * list (list f64) * Z) * rng :=
  (([Fin 0], [init], 2), S r).

Definition run (fuel : nat) (a : args) (ambient : rng) : Engine.run :=
  tau_adaptive rng seed_rng rand poisson np_log get_kstoc
               roulette_selection direct_naive fuel a ambient.

(** An exact engine that records its starting point and reports its
    iteration budget as used up. *)
Definition direct_naive_1 (react prod : matrix) (init k : list f64)
    (max_t : f64) (max_iter : nat) (vol : f64) (seed : Z) (flag : bool)
    (r : rng) : (list f64 * list (list f64) * Z) * rng :=
  (([Fin 0], [init], 1), S r).

Definition run_1 (fuel : nat) (a : args) (ambient : rng) : Engine.run :=
  tau_adaptive rng seed_rng rand poisson np_log get_kstoc
               roulette_selection direct_naive_1 fuel a ambient.

End Scripted.

(** Arguments with unit volume, seed 0 and [chem_flag] off. *)
Definition call (R P : matrix) (x0 : list Z) (k : list f64) (nc : Z)
    (max_t : f64) (max_iter : nat) : Engine.args :=
  {| Engine.react_stoic := R; Engine.prod_stoic := P;
     Engine.init_state := x0; Engine.k_det := k; Engine.nc := nc;
     Engine.eps := Fin (3 # 100); Engine.max_t := max_t;
     Engine.max_iter := max_iter; Engine.volume := Fin 1;
     Engine.seed := 0; Engine.chem_flag := false |}.

(** The networks of the examples: a decay [A -> 0] at rate 1, a
    dimerisation [2A -> 0] at rate 1, and two independent decays [A -> 0]
    (rate 0) and [B -> 0] (rate 1). *)
Definition decay (x0 : Z) (max_t : f64) (max_iter : nat) : Engine.args :=
  call [[1]] [[0]] [x0] [Fin 1] 10 max_t max_iter.

Definition dimerisation (max_t : f64) (max_iter : nat) : Engine.args :=
  call [[2]] [[0]] [1] [Fin 1] 10 max_t max_iter.

(** A chain [A -> B -> 0], both rates 1, one molecule each, with the
    criticality threshold 2. *)
Definition chain (max_t : f64) (max_iter : nat) : Engine.args :=
  call [[1; 0]; [0; 1]] [[0; 0]; [1; 0]] [1; 1] [Fin 1; Fin 1] 2 max_t
       max_iter.

Definition two_decays (max_t : f64) (max_iter : nat) : Engine.args :=
  call [[1; 0]; [0; 1]] [[0; 0]; [0; 0]] [5; 0] [Fin 0; Fin 1] 10 max_t
       max_iter.

(** A source and a sink, [0 -> A] and [A -> 0], both at rate 1, from 5
    molecules: reaction 0 consumes nothing. *)
Definition source_and_sink (max_t : f64) (max_iter : nat) : Engine.args :=
  call [[0; 1]] [[1; 0]] [5] [Fin 1; Fin 1] 10 max_t max_iter.


(* ------------------------------------------------------------------ *)
(** * A call inside a process

    [np.random.seed(seed)] at line 138 runs in the interpreter (the [njit]
    decorator at line 71 is commented out) and resets numpy's global
    generator.  What a collaborator draws from is decided in its own module:
    code compiled with numba's [njit], which line 6 imports, draws from the
    generator of the compiled code, and a seed call made in the interpreter
    does not reach that one.  [Process] therefore lets the random state [W]
    of the process hold more than numpy's generator: seeding is a function
    of the seed and of the state the process is in when the call starts, and
    the call is [Engine.tau_adaptive] started there. *)

Module Process.
Import Engine.

Section InAProcess.

Variable W : Type.
(** [np.random.seed(seed)] in the process state [w]. *)
Variable np_seed : Z -> W -> W.
Variable rand : W -> f64 * W.
Variable poisson : f64 -> W -> option Z * W.
Variable np_log : f64 -> f64.
Variable get_kstoc : matrix -> list f64 -> f64 -> bool -> list f64.
Variable roulette_selection : list f64 -> list f64 -> W -> Z * W.
Variable direct_naive :
  matrix -> matrix -> list f64 -> list f64 -> f64 -> nat -> f64 -> Z -> bool ->
  W -> (list f64 * list (list f64) * Z) * W.

Definition tau_adaptive_in (w : W) (fuel : nat) (a : args) : run :=
  tau_adaptive W (fun s => np_seed s w) rand poisson np_log get_kstoc
               roulette_selection direct_naive fuel a w.

End InAProcess.

(** One process with two generators: numpy's, which [np.random.seed]
    resets and [np.random.rand] and [np.random.poisson] advance, and the
    collaborators' own, from which the roulette takes reaction 0 on an even
    state and reaction 1 on an odd one. *)
Record gens : Type := { numpy_gen : nat; own_gen : nat }.

Definition np_seed (seed : Z) (w : gens) : gens :=
  {| numpy_gen := O; own_gen := own_gen w |}.
Definition rand (w : gens) : f64 * gens :=
  (Fin (1 # 2), {| numpy_gen := S (numpy_gen w); own_gen := own_gen w |}).
Definition poisson (lam : f64) (w : gens) : option Z * gens :=
  (if flt lam (Fin 0) || is_nan lam then None else Some 1,
   {| numpy_gen := S (numpy_gen w); own_gen := own_gen w |}).
Definition roulette_selection (p x : list f64) (w : gens) : Z * gens :=
  (if Nat.even (own_gen w) then 0 else 1,
   {| numpy_gen := numpy_gen w; own_gen := S (own_gen w) |}).
Definition direct_naive (react prod : matrix) (init k : list f64)
    (max_t : f64) (max_iter : nat) (vol : f64) (seed : Z) (flag : bool)
    (w : gens) : (list f64 * list (list f64) * Z) * gens :=
  (([Fin 0], [init], 2),
   {| numpy_gen := numpy_gen w; own_gen := S (own_gen w) |}).

Definition run (w : gens) (fuel : nat) (a : args) : Engine.run :=
  tau_adaptive_in gens np_seed rand poisson Scripted.np_log
                  Scripted.get_kstoc roulette_selection direct_naive
                  w fuel a.

End Process.

(* ------------------------------------------------------------------ *)
(** * The reaction-order classifier *)

(** C7.  On the reactant matrix [[0,2],[1,1]] (reaction 1 is of order 3 and
    takes species 0 twice) [get_HOR] answers 3 for species 0, where the
    documented classification gives the code -32: the positions of the
    order-3 reactions are looked up in the filtered array and then used on
    the full row. *)
Theorem get_HOR_misses_code_32 :
  get_HOR [[0; 2]; [1; 1]] = [3; 3]
  /\ get_HOR_documented [[0; 2]; [1; 1]] = [-32; 3].
Proof. split; reflexivity. Qed.

(** When the species is a reactant of every reaction, the positions agree
    and the code is found. *)
Example get_HOR_finds_code_32 : get_HOR [[2; 0]; [1; 1]] = [-32; 3].
Proof. reflexivity. Qed.

(* ------------------------------------------------------------------ *)
(** * The error-control factor *)

(** C5.  For the codes -2 and -32 the guard [x is not 1] never fails, so at
    [x_i = 1] the quotient by [x_i - 1] is taken: [g] is infinite, not 2 or
    3.  The code -3, guarded by [not in], does get 3 at 1 and at 2. *)
Theorem g_factor_divides_by_zero_at_one (g : option f64) :
  g_factor (-2) (Fin 1) g = Some PInf
  /\ g_factor (-32) (Fin 1) g = Some PInf
  /\ g_factor (-3) (Fin 1) g = Some (Fin 3)
  /\ g_factor (-3) (Fin 2) g = Some (Fin 3).
Proof. repeat split; reflexivity. Qed.

(** Away from the poles the three formulas are the documented ones. *)
Lemma g_factor_formulas (q : Q) (g : option f64) :
  g_factor (-2) (Fin q) g
    = Some (fadd (Fin 1) (fdiv (Fin 2) (fsub (Fin q) (Fin 1))))
  /\ g_factor (-32) (Fin q) g
    = Some (fmul (Fin (3 # 2))
                 (fadd (Fin 2) (fdiv (Fin 1) (fsub (Fin q) (Fin 1))))).
Proof. split; reflexivity. Qed.

Lemma g_factor_positive (h : Z) (xi : f64) (g : option f64) :
  0 < h -> g_factor h xi g = Some (of_Z h).
Proof.
  intros H. unfold g_factor.
  destruct (Z.ltb_spec 0 h) as [_ | Hle]; [reflexivity | lia].
Qed.

(** The division is reached inside an iteration: with [2A -> 0] and
    [B -> 0], one molecule of A and 100 of B, the second reaction is not
    critical, so the loop over the reactant species runs and leaves an
    infinite [g] for A. *)
Example infinite_g_inside_an_iteration :
  let R := [[2; 0]; [0; 1]] in
  let x := [Fin 1; Fin 100] in
  let prop := propensities R [Fin 1; Fin 1] x in
  get_HOR R = [-2; 1]
  /\ map negb (crit 10 [Fin (1 # 2); Fin 100] prop) = [false; true]
  /\ species_pass (net_stoic R [[0; 0]; [0; 0]]) (get_HOR R) x prop
                  [false; true]
                  {| mup := []; sigp := []; tau_num := []; g_now := None |}
                  0
     = Some {| mup := [Fin 0]; sigp := [Fin 0]; tau_num := [Fin 1];
               g_now := Some PInf |}.
Proof. repeat split; vm_compute; reflexivity. Qed.

(** The bound itself is 1 at [x_i = 1] whichever value [g] took. *)
Example bound_at_one : bound (Fin 1) PInf = Fin 1 /\ bound (Fin 1) (Fin 2) = Fin 1.
Proof. split; reflexivity. Qed.

(* ------------------------------------------------------------------ *)
(** * The criticality partition *)

Lemma select_incl {A} (l : list A) (mask : list bool) (a : A) :
  In a (select l mask) -> In a l.
Proof.
  unfold select. intros H. apply in_map_iff in H.
  destruct H as [[b m] [Hb Hin]]. simpl in Hb. subst b.
  apply filter_In in Hin. destruct Hin as [Hin _].
  eapply in_combine_l; exact Hin.
Qed.

Lemma select_own_mask {A} (f : A -> bool) (l : list A) (a : A) :
  In a (select l (map f l)) -> f a = true.
Proof.
  unfold select. induction l as [| h l IH]; simpl; [tauto |].
  destruct (f h) eqn:Hf; simpl; [| exact IH].
  intros [<- | H]; [exact Hf | exact (IH H)].
Qed.

Lemma map2_Forall {A B C} (f : A -> B -> C) (P : A -> Prop) (Q : B -> Prop)
    (R : C -> Prop) (a : list A) (b : list B) :
  (forall p q, P p -> Q q -> R (f p q)) ->
  Forall P a -> Forall Q b -> Forall R (map2 f a b).
Proof.
  intros Hf Ha. revert b.
  induction Ha as [| p a Hp Ha IH]; intros b Hb; [constructor |].
  destruct Hb as [| q b Hq Hb]; simpl; constructor; auto.
Qed.

Lemma fdiv_by_positive (p : Q) (c : Z) :
  c < 0 -> fdiv (Fin p) (of_Z (Z.abs c)) = Fin (Qred (p / inject_Z (Z.abs c))).
Proof.
  intros Hc. unfold fdiv, of_Z, Qsgn. simpl.
  destruct (Z.compare_spec (Z.abs c) 0) as [H | H | H]; try lia; reflexivity.
Qed.

(** With a finite state every quotient is finite. *)
Lemma quotients_finite (v : matrix) (x : list f64) (j : nat) :
  Forall (fun a => finite a = true) x ->
  Forall (fun a => finite a = true) (quotients v x j).
Proof.
  intros Hx. unfold quotients.
  apply map2_Forall with (P := fun a => finite a = true)
                         (Q := fun d => exists c, c < 0 /\ d = of_Z (Z.abs c)).
  - intros [p | | |] d Hp [c [Hc ->]]; try discriminate.
    rewrite fdiv_by_positive by exact Hc. reflexivity.
  - apply Forall_forall. intros a Ha.
    rewrite Forall_forall in Hx. apply Hx. eapply select_incl; exact Ha.
  - apply Forall_forall. intros d Hd. apply in_map_iff in Hd.
    destruct Hd as [c [<- Hc]]. exists c. split; [| reflexivity].
    apply select_own_mask in Hc. apply Z.ltb_lt. exact Hc.
Qed.

Lemma Qlt_bool_iff (a b : Q) : Qlt_bool a b = true <-> (a < b)%Q.
Proof.
  unfold Qlt_bool. rewrite negb_true_iff.
  split; intros H.
  - apply Qnot_le_lt. intros Hle. apply Qle_bool_iff in Hle. congruence.
  - destruct (Qle_bool b a) eqn:E; [| reflexivity].
    apply Qle_bool_iff in E. exfalso. exact (Qlt_not_le _ _ H E).
Qed.

(** The running minimum of finite values is one of them and below all. *)
Lemma fold_fmin_finite (r : list f64) (a : Q) :
  Forall (fun b => finite b = true) r ->
  exists m, fold_left fmin r (Fin a) = Fin m
    /\ In (Fin m) (Fin a :: r)
    /\ (m <= a)%Q
    /\ (forall q, In (Fin q) r -> (m <= q)%Q).
Proof.
  intros Hr. revert a.
  induction Hr as [| b r Hb Hr IH]; intros a.
  - exists a. simpl. split; [reflexivity |]. split; [left; reflexivity |].
    split; [apply Qle_refl | intros q []].
  - destruct b as [b | | |]; try discriminate. simpl.
    unfold fmin at 2. simpl.
    destruct (Qlt_bool b a) eqn:E.
    + apply Qlt_bool_iff in E.
      destruct (IH b) as [m [Hm [Hin [Hle Hall]]]].
      exists m. split; [exact Hm |]. split; [| split].
      * destruct Hin as [Hin | Hin];
          [right; left; exact Hin | right; right; exact Hin].
      * apply Qle_trans with b; [exact Hle | apply Qlt_le_weak; exact E].
      * intros q [Hq | Hq]; [injection Hq as <-; exact Hle | auto].
    + assert (a <= b)%Q as Hab.
      { apply Qnot_lt_le. intros Hlt. apply Qlt_bool_iff in Hlt. congruence. }
      destruct (IH a) as [m [Hm [Hin [Hle Hall]]]].
      exists m. split; [exact Hm |]. split; [| split].
      * destruct Hin as [Hin | Hin];
          [left; exact Hin | right; right; exact Hin].
      * exact Hle.
      * intros q [Hq | Hq];
          [injection Hq as <-; apply Qle_trans with a; assumption | auto].
Qed.

Lemma filter_all {A} (f : A -> bool) (l : list A) :
  Forall (fun a => f a = true) l -> filter f l = l.
Proof.
  induction 1 as [| a l Ha Hl IH]; simpl; [reflexivity |].
  rewrite Ha, IH. reflexivity.
Qed.

Lemma nanmin_finite (l : list f64) :
  l <> [] ->
  Forall (fun b => finite b = true) l ->
  exists m, nanmin l = Some (Fin m)
    /\ In (Fin m) l
    /\ (forall q, In (Fin q) l -> (m <= q)%Q).
Proof.
  intros Hne Hl. unfold nanmin.
  rewrite (filter_all (fun a => negb (is_nan a)) l).
  2:{ eapply Forall_impl; [| exact Hl]. intros [q | | |]; simpl; congruence. }
  destruct l as [| a r]; [congruence |].
  inversion Hl as [| a' r' Ha Hr]; subst.
  destruct a as [a | | |]; try discriminate.
  destruct (fold_fmin_finite r a Hr) as [m [Hm [Hin [Hle Hall]]]].
  exists m. split; [rewrite Hm; reflexivity |]. split; [exact Hin |].
  intros q [Hq | Hq]; [injection Hq as <-; exact Hle | auto].
Qed.

(** Comparing with an integer threshold sees no difference between a value
    and its floor. *)
Lemma below_integer_iff_floor_below (m : Q) (n : Z) :
  Qlt_bool m (inject_Z n) = (Qfloor m <? n).
Proof.
  apply eq_true_iff_eq. rewrite Qlt_bool_iff, Z.ltb_lt. split; intros H.
  - rewrite Zlt_Qlt. apply Qle_lt_trans with m; [apply Qfloor_le | exact H].
  - apply Qlt_le_trans with (inject_Z (Qfloor m + 1)); [apply Qlt_floor |].
    rewrite <- Zle_Qle. lia.
Qed.

(** For a finite state and a reaction that consumes at least one
    species, [L_j] is the least of the quotients
    [x_i / |net_stoic[i,j]|], not floored, and the reaction is critical
    exactly when the floor of [L_j] is below [nc] and its propensity is
    positive. *)
Theorem criticality_by_least_quotient (v : matrix) (x : list f64) (j : nat)
    (nc : Z) (p : f64) :
  Forall (fun a => finite a = true) x ->
  quotients v x j <> [] ->
  exists m, L_of v x j = Some (Fin m)
    /\ In (Fin m) (quotients v x j)
    /\ (forall q, In (Fin q) (quotients v x j) -> (m <= q)%Q)
    /\ critical nc (Fin m) p = (Qfloor m <? nc) && fgt p (Fin 0).
Proof.
  intros Hx Hne.
  destruct (nanmin_finite (quotients v x j) Hne (quotients_finite v x j Hx))
    as [m [Hm [Hin Hall]]].
  exists m. split; [exact Hm |]. split; [exact Hin |]. split; [exact Hall |].
  unfold critical, flt, of_Z. rewrite below_integer_iff_floor_below.
  reflexivity.
Qed.

Lemma criticality_by_least_quotient_witness :
  exists m, L_of [[-2]; [-1]] [Fin 3; Fin 7] 0 = Some (Fin m)
    /\ In (Fin m) (quotients [[-2]; [-1]] [Fin 3; Fin 7] 0)
    /\ (forall q, In (Fin q) (quotients [[-2]; [-1]] [Fin 3; Fin 7] 0)
                  -> (m <= q)%Q)
    /\ critical 10 (Fin m) (Fin 21) = (Qfloor m <? 10) && fgt (Fin 21) (Fin 0).
Proof.
  apply (criticality_by_least_quotient [[-2]; [-1]] [Fin 3; Fin 7] 0 10 (Fin 21)).
  - repeat constructor.
  - vm_compute. discriminate.
Defined.

(** With 3 molecules and a reaction that takes 2, the source has
    [L = 3/2] where the floored bound is 1; against an integer [nc] the two
    classify alike. *)
Lemma L_is_not_floored :
  L_of [[-2]] [Fin 3] 0 = Some (Fin (3 # 2))
  /\ L_floored [[-2]] [Fin 3] 0 = Some (Fin 1).
Proof. split; reflexivity. Qed.

(** A reaction that consumes nothing has no quotient, and [np.nanmin] of
    an empty array raises. *)
Example L_of_pure_production : L_of [[1]] [Fin 5] 0 = None.
Proof. reflexivity. Qed.

(* ------------------------------------------------------------------ *)
(** * Runs of tau_adaptive *)

Section Runs.
Import Engine.
Variable rng : Type.
Variable seed_rng : Z -> rng.
Variable rand : rng -> f64 * rng.
Variable poisson : f64 -> rng -> option Z * rng.
Variable np_log : f64 -> f64.
Variable get_kstoc : matrix -> list f64 -> f64 -> bool -> list f64.
Variable roulette_selection : list f64 -> list f64 -> rng -> Z * rng.
Variable direct_naive :
  matrix -> matrix -> list f64 -> list f64 -> f64 -> nat -> f64 -> Z -> bool ->
  rng -> (list f64 * list (list f64) * Z) * rng.

Local Abbreviation tau_adaptive :=
  (Engine.tau_adaptive rng seed_rng rand poisson np_log get_kstoc
                       roulette_selection direct_naive).
Local Abbreviation loop :=
  (Engine.loop rng rand poisson np_log roulette_selection direct_naive).
Local Abbreviation iteration :=
  (Engine.iteration rng rand poisson np_log roulette_selection direct_naive).
Local Abbreviation leap :=
  (Engine.leap rng rand poisson np_log roulette_selection).
Local Abbreviation burst := (Engine.burst rng direct_naive).
Local Abbreviation fill_K := (Engine.fill_K rng poisson).
Local Abbreviation commit := (Engine.commit rng).
Local Abbreviation candidate := (Engine.candidate rng).

Lemma tau_adaptive_enters_loop (fuel n : nat) (a : args) (ambient : rng)
    (x0 kstoc : list f64) :
  max_iter a = S n ->
  first_row (length (react_stoic a)) (init_state a) = Some x0 ->
  get_kstoc (react_stoic a) (k_det a) (volume a) (chem_flag a) = kstoc ->
  flt (fsum kstoc) tiny && fgt (fsum x0) tiny = false ->
  tau_adaptive fuel a ambient
  = loop fuel a kstoc (get_HOR (react_stoic a)) (entry_state rng seed_rng a x0 n).
Proof.
  intros Hn Hx Hk Hc. unfold Engine.tau_adaptive.
  rewrite Hn, Hx, Hk, Hc. reflexivity.
Qed.

Lemma loop_unfold (fuel : nat) (a : args) (kstoc : list f64) (HOR : list Z)
    (s : st rng) :
  (ite s <? max_iter a)%nat = true ->
  loop (S fuel) a kstoc HOR s
  = match iteration a kstoc HOR s with
    | Done r => r
    | Continue s' => loop fuel a kstoc HOR s'
    end.
Proof. intros H. simpl. rewrite H. reflexivity. Qed.

Lemma loop_exit (fuel : nat) (a : args) (kstoc : list f64) (HOR : list Z)
    (s : st rng) :
  (ite s <? max_iter a)%nat = false ->
  loop fuel a kstoc HOR s
  = Returns (firstn (ite s) (t s)) (firstn (ite s) (x s)) 1.
Proof. intros H. destruct fuel; simpl; rewrite H; reflexivity. Qed.

Lemma iteration_unfold (a : args) (kstoc : list f64) (HOR : list Z)
    (s : st rng) (prop L : list f64) (taup : f64) (g' : option f64) :
  propensities (react_stoic a) kstoc (nth (ite s - 1) (x s) []) = prop ->
  flt (fsum prop) tiny = false ->
  L_vector (net_stoic (react_stoic a) (prod_stoic a))
           (nth (ite s - 1) (x s) []) (shape1 (react_stoic a)) = Some L ->
  candidate a HOR s prop (map negb (crit (nc a) L prop)) = inr (taup, g') ->
  iteration a kstoc HOR s
  = if small_step taup (fsum prop) then burst a (with_g s g')
    else leap a (with_g s g') prop (fsum prop)
              (map negb (crit (nc a) L prop)) taup.
Proof.
  intros Hp Ht HL Hc. unfold Engine.iteration.
  rewrite Hp, Ht, HL, Hc. reflexivity.
Qed.

Lemma leap_exact_interval (a : args) (s : st rng) (prop : list f64)
    (prop_sum taup u : f64) (not_crit : list bool) (r1 r2 r3 : rng) (j : Z)
    (K : list Z) :
  rand (gen s) = (u, r1) ->
  feqb u (Fin 0) = false ->
  flt taup (taupp_of np_log prop_sum u) = false ->
  roulette_selection
    (map2 (fun p (b : bool) => if b then Fin 0 else p) prop not_crit)
    (nth (ite s - 1) (x s) []) r1 = (j, r2) ->
  fill_K (taupp_of np_log prop_sum u) (Some j) 0 not_crit prop r2 = (Some K, r3) ->
  leap a s prop prop_sum not_crit taup
  = commit a s (taupp_of np_log prop_sum u) K r3.
Proof.
  intros Hu Hu0 Hb Hr HK. unfold Engine.leap.
  rewrite Hu, Hu0, Hb, Hr, HK. reflexivity.
Qed.

Lemma leap_bounded_interval (a : args) (s : st rng) (prop : list f64)
    (prop_sum taup u : f64) (not_crit : list bool) (r1 r2 : rng)
    (K : list Z) :
  rand (gen s) = (u, r1) ->
  feqb u (Fin 0) = false ->
  flt taup (taupp_of np_log prop_sum u) = true ->
  fill_K taup None 0 not_crit prop r1 = (Some K, r2) ->
  leap a s prop prop_sum not_crit taup = commit a s taup K r2.
Proof.
  intros Hu Hu0 Hb HK. unfold Engine.leap.
  rewrite Hu, Hu0, Hb, HK. reflexivity.
Qed.

Lemma commit_continue (a : args) (s : st rng) (tau ti : f64) (K : list Z)
    (r : rng) :
  nth_error (set_at (ite s) (fadd (nth (ite s - 1) (t s) (Fin 0)) tau) (t s))
            (S (ite s)) = Some ti ->
  fgt ti (max_t a) = false ->
  commit a s tau K r
  = Continue
      {| ite := S (ite s);
         t := set_at (ite s) (fadd (nth (ite s - 1) (t s) (Fin 0)) tau) (t s);
         x := set_at (ite s)
                (apply_K (net_stoic (react_stoic a) (prod_stoic a))
                         (nth (ite s - 1) (x s) []) K) (x s);
         g := g s;
         gen := r |}.
Proof.
  intros Hn Hc. unfold Engine.commit. rewrite Hn, Hc. reflexivity.
Qed.

Lemma commit_past_the_buffer (a : args) (s : st rng) (tau : f64)
    (K : list Z) (r : rng) :
  nth_error (set_at (ite s) (fadd (nth (ite s - 1) (t s) (Fin 0)) tau) (t s))
            (S (ite s)) = None ->
  commit a s tau K r = Done (Raises IndexError).
Proof. intros Hn. unfold Engine.commit. rewrite Hn. reflexivity. Qed.

Lemma burst_terminal (a : args) (s : st rng) (t_ssa : list f64)
    (x_ssa : list (list f64)) (status : Z) (r' : rng) :
  direct_naive (react_stoic a) (prod_stoic a) (nth (ite s - 1) (x s) [])
               (k_det a) (fsub (max_t a) (nth (ite s - 1) (t s) (Fin 0)))
               (py_min 100 (max_iter a - ite s)) (volume a) (seed a)
               (chem_flag a) (gen s) = ((t_ssa, x_ssa, status), r') ->
  (max_iter a - ite s <? length t_ssa)%nat = false ->
  rows_fit (length (react_stoic a)) (length t_ssa) x_ssa = true ->
  (status =? 3) || (status =? 2) = true ->
  burst a s
  = Done (Returns (set_slice (ite s) t_ssa (t s))
                  (set_slice (ite s) x_ssa (x s)) status).
Proof.
  intros Hd Hl Hr Hs. unfold Engine.burst.
  rewrite Hd, Hl, Hr, Hs. reflexivity.
Qed.

Lemma burst_continue (a : args) (s : st rng) (t_ssa : list f64)
    (x_ssa : list (list f64)) (status : Z) (r' : rng) :
  direct_naive (react_stoic a) (prod_stoic a) (nth (ite s - 1) (x s) [])
               (k_det a) (fsub (max_t a) (nth (ite s - 1) (t s) (Fin 0)))
               (py_min 100 (max_iter a - ite s)) (volume a) (seed a)
               (chem_flag a) (gen s) = ((t_ssa, x_ssa, status), r') ->
  (max_iter a - ite s <? length t_ssa)%nat = false ->
  rows_fit (length (react_stoic a)) (length t_ssa) x_ssa = true ->
  (status =? 3) || (status =? 2) = false ->
  burst a s
  = Continue {| ite := ite s + length t_ssa;
                t := set_slice (ite s) t_ssa (t s);
                x := set_slice (ite s) x_ssa (x s);
                g := g s;
                gen := r' |}.
Proof.
  intros Hd Hl Hr Hs. unfold Engine.burst.
  rewrite Hd, Hl, Hr, Hs. reflexivity.
Qed.

(** C3.  Two decays, [A -> 0] with rate 0 and [B -> 0] with rate 1, started
    with 5 molecules of A and none of B: the rate constants do not sum to
    zero, so the test before the loop passes; inside the loop every
    propensity is zero and the run ends with status 3, although 5 molecules
    of the reactant A remain; the documented status for that is -2. *)
Theorem zero_propensity_in_loop_is_status_3 (fuel n : nat) (ambient : rng)
    (max_t : f64) :
  get_kstoc [[1; 0]; [0; 1]] [Fin 0; Fin 1] (Fin 1) false = [Fin 0; Fin 1] ->
  tau_adaptive (S fuel) (two_decays max_t (S (S n))) ambient
  = Returns [Fin 0] [[Fin 5; Fin 0]] 3.
Proof.
  intros Hk.
  rewrite (tau_adaptive_enters_loop (S fuel) (S n)
             (two_decays max_t (S (S n))) ambient
             [Fin 5; Fin 0] [Fin 0; Fin 1] eq_refl eq_refl Hk eq_refl).
  rewrite loop_unfold by reflexivity.
  reflexivity.
Qed.

(** X3.  All rate constants zero and molecules present: the test before the loop
    answers -2. *)
Lemma stuck_at_entry (fuel n : nat) (a : args) (ambient : rng)
    (x0 : list f64) :
  max_iter a = S n ->
  first_row (length (react_stoic a)) (init_state a) = Some x0 ->
  flt (fsum (get_kstoc (react_stoic a) (k_det a) (volume a) (chem_flag a)))
      tiny = true ->
  fgt (fsum x0) tiny = true ->
  tau_adaptive fuel a ambient
  = Returns [Fin 0] [x0] (-2).
Proof.
  intros Hn Hx Hk Hs. unfold Engine.tau_adaptive.
  rewrite Hn, Hx, Hk, Hs. reflexivity.
Qed.

(** C2.  A decay from 5 molecules: the only reaction is critical, the
    first iteration fires it once after the exact-step interval [taupp], and
    the new time [0 + taupp] is past [max_t].  The exit test reads [t] one
    slot further, where the buffer still holds 0, so with [max_t >= 0] the
    call does not return: it goes on with the loop from the state
    written. *)
Theorem leap_past_max_t_keeps_looping (fuel n : nat)
    (ambient r1 r2 : rng) (u max_t : f64) :
  get_kstoc [[1]] [Fin 1] (Fin 1) false = [Fin 1] ->
  rand (seed_rng 0) = (u, r1) ->
  feqb u (Fin 0) = false ->
  flt HIGH (taupp_of np_log (Fin 5) u) = false ->
  roulette_selection [Fin 5] [Fin 5] r1 = (0, r2) ->
  fgt (Fin 0) max_t = false ->
  fgt (fadd (Fin 0) (taupp_of np_log (Fin 5) u)) max_t = true ->
  tau_adaptive (S fuel) (decay 5 max_t (S (S (S n)))) ambient
  = loop fuel (decay 5 max_t (S (S (S n)))) [Fin 1] [1]
      {| ite := 2;
         t := Fin 0 :: fadd (Fin 0) (taupp_of np_log (Fin 5) u) :: Fin 0
              :: repeat (Fin 0) n;
         x := [Fin 5] :: [Fin 4] :: [Fin 0] :: repeat [Fin 0] n;
         g := None;
         gen := r2 |}.
Proof.
  intros Hk Hu Hu0 Hb Hr Hm _.
  set (a := decay 5 max_t (S (S (S n)))).
  rewrite (tau_adaptive_enters_loop (S fuel) (S (S n)) a ambient
             [Fin 5] [Fin 1] eq_refl eq_refl Hk eq_refl).
  rewrite loop_unfold by reflexivity.
  rewrite (iteration_unfold a [Fin 1] _ _ [Fin 5] [Fin 5] HIGH None)
    by (vm_compute; reflexivity).
  replace (small_step HIGH (fsum [Fin 5])) with false
    by (vm_compute; reflexivity).
  change (fsum [Fin 5]) with (Fin 5).
  change (map negb (crit (nc a) [Fin 5] [Fin 5])) with [false].
  set (s0 := with_g (entry_state rng seed_rng a [Fin 5] (S (S n))) None).
  rewrite (leap_exact_interval a s0 [Fin 5] (Fin 5) HIGH u
             [false] r1 r2 r2 0 [1] Hu Hu0 Hb Hr eq_refl).
  rewrite (commit_continue a s0 _ (Fin 0));
    [reflexivity | reflexivity | exact Hm].
Qed.

Lemma set_slice_length {A} (i : nat) (b a : list A) :
  (i + length b <= length a)%nat -> length (set_slice i b a) = length a.
Proof.
  intros H. unfold set_slice.
  rewrite !length_app, length_firstn, length_skipn. lia.
Qed.

(** C8.  A decay from 40 molecules with room for [S (S n)] points: the
    first iteration hands over to the exact engine.  When the burst comes
    back with status 2 or 3 the call returns the buffers whole: [S (S n)]
    entries, of which only the first and the burst's are trajectory
    points. *)
Theorem burst_exit_returns_whole_buffers (fuel n : nat) (ambient r' : rng)
    (max_t : f64) (t_ssa : list f64) (x_ssa : list (list f64)) (status : Z) :
  get_kstoc [[1]] [Fin 1] (Fin 1) false = [Fin 1] ->
  direct_naive [[1]] [[0]] [Fin 40] [Fin 1] (fsub max_t (Fin 0))
               (py_min 100 (S n)) (Fin 1) 0 false (seed_rng 0)
    = ((t_ssa, x_ssa, status), r') ->
  (length t_ssa <= n)%nat ->
  rows_fit 1 (length t_ssa) x_ssa = true ->
  (status =? 3) || (status =? 2) = true ->
  tau_adaptive (S fuel) (decay 40 max_t (S (S n))) ambient
  = Returns (set_slice 1 t_ssa (repeat (Fin 0) (S (S n))))
            (set_slice 1 x_ssa ([Fin 40] :: repeat [Fin 0] (S n)))
            status
  /\ length (set_slice 1 t_ssa (repeat (Fin 0) (S (S n)))) = S (S n)
  /\ length (set_slice 1 x_ssa ([Fin 40] :: repeat [Fin 0] (S n))) = S (S n)
  /\ (1 + length t_ssa < S (S n))%nat.
Proof.
  intros Hk Hd Hlen Hrows Hs.
  assert (length x_ssa = length t_ssa) as Hx.
  { unfold rows_fit in Hrows. apply andb_true_iff in Hrows.
    destruct Hrows as [Hrows _]. apply Nat.eqb_eq. exact Hrows. }
  split; [| split; [| split]].
  - set (a := decay 40 max_t (S (S n))).
    rewrite (tau_adaptive_enters_loop (S fuel) (S n) a ambient
               [Fin 40] [Fin 1] eq_refl eq_refl Hk eq_refl).
    rewrite loop_unfold by reflexivity.
    rewrite (iteration_unfold a [Fin 1] _ _ [Fin 40] [Fin 40]
               (Fin (3 # 100)) (Some (Fin 1)))
    by (vm_compute; reflexivity).
    replace (small_step (Fin (3 # 100)) (fsum [Fin 40])) with true
      by (vm_compute; reflexivity).
    set (s0 := with_g (entry_state rng seed_rng a [Fin 40] (S n))
                      (Some (Fin 1))).
    rewrite (burst_terminal a s0 t_ssa x_ssa status r' Hd).
    + reflexivity.
    + apply Nat.ltb_ge. simpl. lia.
    + exact Hrows.
    + exact Hs.
  - rewrite set_slice_length; rewrite repeat_length; lia.
  - rewrite set_slice_length; simpl; rewrite repeat_length; lia.
  - lia.
Qed.


(** C9.  The chain [A -> B -> 0] with one molecule each and [nc = 2]:
    both reactions are critical, the first iteration fires [A -> B] after
    [taupp], and the state [0, 2] of the second iteration goes to the exact
    engine, whose clock starts again with the burst ([max_t] is passed less
    the time reached).  The burst's times are copied as they are, so when
    the burst opens below the time already reached, the returned times go
    down from the second point to the third. *)
Theorem burst_times_restart (fuel n : nat) (ambient r1 r2 r3 : rng)
    (u max_t t_first : f64) (t_rest : list f64)
    (x_ssa : list (list f64)) (status : Z) :
  get_kstoc [[1; 0]; [0; 1]] [Fin 1; Fin 1] (Fin 1) false
    = [Fin 1; Fin 1] ->
  rand (seed_rng 0) = (u, r1) ->
  feqb u (Fin 0) = false ->
  flt HIGH (taupp_of np_log (Fin 2) u) = false ->
  roulette_selection [Fin 1; Fin 1] [Fin 1; Fin 1] r1 = (0, r2) ->
  fgt (Fin 0) max_t = false ->
  direct_naive [[1; 0]; [0; 1]] [[0; 0]; [1; 0]] [Fin 0; Fin 2]
               [Fin 1; Fin 1]
               (fsub max_t (fadd (Fin 0) (taupp_of np_log (Fin 2) u)))
               (py_min 100 (S n)) (Fin 1) 0 false r2
    = ((t_first :: t_rest, x_ssa, status), r3) ->
  (length t_rest <= n)%nat ->
  rows_fit 2 (S (length t_rest)) x_ssa = true ->
  (status =? 3) || (status =? 2) = true ->
  flt t_first (fadd (Fin 0) (taupp_of np_log (Fin 2) u)) = true ->
  exists ts xs,
    tau_adaptive (S (S fuel)) (chain max_t (S (S (S n)))) ambient
    = Returns ts xs status
    /\ nth_error ts 1 = Some (fadd (Fin 0) (taupp_of np_log (Fin 2) u))
    /\ nth_error ts 2 = Some t_first
    /\ non_decreasing ts = false.
Proof.
  intros Hk Hu Hu0 Hb Hr Hm Hd Hlen Hrows Hs Hdown.
  set (a := chain max_t (S (S (S n)))).
  rewrite (tau_adaptive_enters_loop (S (S fuel)) (S (S n)) a ambient
             [Fin 1; Fin 1] [Fin 1; Fin 1] eq_refl eq_refl Hk eq_refl).
  rewrite loop_unfold by reflexivity.
  rewrite (iteration_unfold a [Fin 1; Fin 1] _ _ [Fin 1; Fin 1]
             [Fin 1; Fin 1] HIGH None)
    by (vm_compute; reflexivity).
  replace (small_step HIGH (fsum [Fin 1; Fin 1])) with false
    by (vm_compute; reflexivity).
  change (fsum [Fin 1; Fin 1]) with (Fin 2).
  change (map negb (crit (nc a) [Fin 1; Fin 1] [Fin 1; Fin 1]))
    with [false; false].
  set (s0 := with_g (entry_state rng seed_rng a [Fin 1; Fin 1] (S (S n)))
                    None).
  rewrite (leap_exact_interval a s0 [Fin 1; Fin 1] (Fin 2) HIGH u
             [false; false] r1 r2 r2 0 [1; 0] Hu Hu0 Hb Hr eq_refl).
  rewrite (commit_continue a s0 _ (Fin 0));
    [| reflexivity | exact Hm].
  change (loop (S fuel) a [Fin 1; Fin 1] (get_HOR (react_stoic a)) _)
    with (loop (S fuel) a [Fin 1; Fin 1] [1; 1]
            {| ite := 2;
               t := Fin 0 :: fadd (Fin 0) (taupp_of np_log (Fin 2) u)
                    :: Fin 0 :: repeat (Fin 0) n;
               x := [Fin 1; Fin 1] :: [Fin 0; Fin 2] :: [Fin 0; Fin 0]
                    :: repeat [Fin 0; Fin 0] n;
               g := None;
               gen := r2 |}).
  remember (fadd (Fin 0) (taupp_of np_log (Fin 2) u)) as t1 eqn:Et1.
  set (s1 := {| ite := 2;
                t := Fin 0 :: t1 :: Fin 0 :: repeat (Fin 0) n;
                x := [Fin 1; Fin 1] :: [Fin 0; Fin 2] :: [Fin 0; Fin 0]
                     :: repeat [Fin 0; Fin 0] n;
                g := None;
                gen := r2 |}).
  rewrite loop_unfold by reflexivity.
  rewrite (iteration_unfold a [Fin 1; Fin 1] _ s1 [Fin 0; Fin 2]
             [Fin 0; Fin 2] (Fin (1 # 2)) (Some (Fin 1)))
    by (vm_compute; reflexivity).
  replace (small_step (Fin (1 # 2)) (fsum [Fin 0; Fin 2])) with true
    by (vm_compute; reflexivity).
  rewrite (burst_terminal a (with_g s1 (Some (Fin 1))) (t_first :: t_rest)
             x_ssa status r3 Hd).
  - eexists. eexists. split; [reflexivity |].
    split; [reflexivity |]. split; [reflexivity |].
    cbn [set_slice firstn skipn app length Nat.add ite t with_g s1
         non_decreasing].
    rewrite Hdown. destruct (flt t1 (Fin 0)); reflexivity.
  - apply Nat.ltb_ge. simpl. lia.
  - exact Hrows.
  - exact Hs.
Qed.

Lemma Qred_id_mult_1 (c : Q) : Qred c = c -> fmul (Fin c) (Fin 1) = Fin c.
Proof.
  intros H. unfold fmul. f_equal. rewrite <- H at 2.
  apply Qred_complete. ring.
Qed.

Lemma Qred_id_plus_0 (c : Q) : Qred c = c -> fadd (Fin 0) (Fin c) = Fin c.
Proof.
  intros H. unfold fadd. f_equal. rewrite <- H at 2.
  apply Qred_complete. ring.
Qed.

Lemma not_tiny (c : Q) : (1 # 10 ^ 19 <= c)%Q -> flt (Fin c) tiny = false.
Proof.
  intros H. unfold flt, tiny, Qlt_bool. rewrite negb_false_iff.
  apply Qle_bool_iff. eapply Qle_trans; [| exact H].
  vm_compute. discriminate.
Qed.

Lemma positive_rate (c : Q) : (1 # 10 ^ 19 <= c)%Q -> fgt (Fin c) (Fin 0) = true.
Proof.
  intros H. unfold fgt, flt. apply Qlt_bool_iff.
  eapply Qlt_le_trans; [| exact H]. reflexivity.
Qed.

Lemma HIGH_is_not_small (c : Q) :
  (1 # 10 ^ 19 <= c)%Q -> small_step HIGH (Fin c) = false.
Proof.
  intros H.
  assert (0 < c)%Q as Hpos by (eapply Qlt_le_trans; [| exact H]; reflexivity).
  unfold small_step, fdiv, Qsgn.
  assert (Qnum c > 0)%Z as Hn.
  { unfold Qlt in Hpos. simpl in Hpos. lia. }
  destruct (Z.compare_spec (Qnum c) 0) as [E | E | E]; try lia.
  unfold HIGH, flt, Qlt_bool. rewrite negb_false_iff.
  apply Qle_bool_iff. rewrite Qred_correct.
  apply Qle_shift_div_r; [exact Hpos |].
  apply Qle_trans with (inject_Z (10 ^ 20) * (1 # 10 ^ 19))%Q.
  - vm_compute. discriminate.
  - apply Qmult_le_l; [reflexivity | exact H].
Qed.

(** C1.  A dimerisation [2A -> 0] started with one molecule.  The
    propensity is the rate constant times [1 ** 2], positive, so the
    reaction is critical and is the one fired in the first step: the state
    written is [1 - 2 = -1].  Nothing looks at its sign; the loop goes on
    from it. *)
Theorem negative_state_is_stored (fuel n : nat) (ambient r1 r2 : rng)
    (c : Q) (u max_t : f64) :
  get_kstoc [[2]] [Fin 1] (Fin 1) false = [Fin c] ->
  Qred c = c ->
  (1 # 10 ^ 19 <= c)%Q ->
  rand (seed_rng 0) = (u, r1) ->
  feqb u (Fin 0) = false ->
  flt HIGH (taupp_of np_log (Fin c) u) = false ->
  roulette_selection [Fin c] [Fin 1] r1 = (0, r2) ->
  fgt (Fin 0) max_t = false ->
  tau_adaptive (S fuel) (dimerisation max_t (S (S (S n)))) ambient
  = loop fuel (dimerisation max_t (S (S (S n)))) [Fin c] [-2]
      {| ite := 2;
         t := Fin 0 :: fadd (Fin 0) (taupp_of np_log (Fin c) u) :: Fin 0
              :: repeat (Fin 0) n;
         x := [Fin 1] :: [Fin (-1)] :: [Fin 0] :: repeat [Fin 0] n;
         g := None;
         gen := r2 |}.
Proof.
  intros Hk Hred Hc Hu Hu0 Hb Hr Hm.
  set (a := dimerisation max_t (S (S (S n)))).
  assert (fsum [Fin c] = Fin c) as Hsum by (apply Qred_id_plus_0; exact Hred).
  assert (propensities [[2]] [Fin c] [Fin 1] = [Fin c]) as Hprop.
  { change (propensities [[2]] [Fin c] [Fin 1]) with [fmul (Fin c) (Fin 1)].
    rewrite Qred_id_mult_1 by exact Hred. reflexivity. }
  rewrite (tau_adaptive_enters_loop (S fuel) (S (S n)) a ambient
             [Fin 1] [Fin c] eq_refl eq_refl Hk).
  2:{ rewrite Hsum, (not_tiny c Hc). reflexivity. }
  rewrite loop_unfold by reflexivity.
  rewrite (iteration_unfold a [Fin c] _
             (entry_state rng seed_rng a [Fin 1] (S (S n)))
             [Fin c] [Fin (1 # 2)] HIGH None Hprop).
  2:{ rewrite Hsum. apply not_tiny. exact Hc. }
  2:{ reflexivity. }
  2:{ unfold Engine.candidate.
      change (crit (nc a) [Fin (1 # 2)] [Fin c])
        with [true && fgt (Fin c) (Fin 0)].
      rewrite (positive_rate c Hc). reflexivity. }
  change (crit (nc a) [Fin (1 # 2)] [Fin c])
    with [true && fgt (Fin c) (Fin 0)].
  rewrite (positive_rate c Hc), Hsum, (HIGH_is_not_small c Hc).
  cbn [map negb andb].
  set (s0 := with_g (entry_state rng seed_rng a [Fin 1] (S (S n))) None).
  rewrite (leap_exact_interval a s0 [Fin c] (Fin c) HIGH u
             [false] r1 r2 r2 0 [1] Hu Hu0 Hb Hr eq_refl).
  rewrite (commit_continue a s0 _ (Fin 0));
    [reflexivity | reflexivity | exact Hm].
Qed.


Lemma with_g_same (s : st rng) : with_g s (g s) = s.
Proof. destruct s. reflexivity. Qed.

(** C6, as amended.  On an iteration where every reaction is critical the
    candidate [taup] is the finite constant [HIGH = 1e20], and the iteration
    goes to the exact engine only if [1e20 < 10 / prop_sum]; with a total
    propensity of at least [1e-19] it draws [taupp] and commits a step. *)
Theorem all_critical_iteration (a : args) (kstoc : list f64) (HOR : list Z)
    (s : st rng) (prop L : list f64) :
  propensities (react_stoic a) kstoc (nth (ite s - 1) (x s) []) = prop ->
  flt (fsum prop) tiny = false ->
  L_vector (net_stoic (react_stoic a) (prod_stoic a))
           (nth (ite s - 1) (x s) []) (shape1 (react_stoic a)) = Some L ->
  none_set (map negb (crit (nc a) L prop)) = true ->
  iteration a kstoc HOR s
  = (if small_step HIGH (fsum prop) then burst a s
     else leap a s prop (fsum prop) (map negb (crit (nc a) L prop)) HIGH)
  /\ (forall q, fsum prop = Fin q -> (1 # 10 ^ 19 <= q)%Q ->
      iteration a kstoc HOR s
      = leap a s prop (fsum prop) (map negb (crit (nc a) L prop)) HIGH).
Proof.
  intros Hp Ht HL Hn.
  assert (iteration a kstoc HOR s
          = if small_step HIGH (fsum prop) then burst a s
            else leap a s prop (fsum prop)
                      (map negb (crit (nc a) L prop)) HIGH) as Hit.
  { rewrite (iteration_unfold a kstoc HOR s prop L HIGH (g s) Hp Ht HL).
    - rewrite with_g_same. reflexivity.
    - unfold Engine.candidate. rewrite Hn. reflexivity. }
  split; [exact Hit |].
  intros q Hq Hle. rewrite Hit, Hq, (HIGH_is_not_small q Hle). reflexivity.
Qed.

Ltac break_match_in H :=
  match type of H with
  | context [match ?c with _ => _ end] => destruct c eqn:?
  end.

(** An iteration that ends the call with a status ends it with 2 or 3. *)
Lemma iteration_status (a : args) (kstoc : list f64) (HOR : list Z)
    (s : st rng) (ts : list f64) (xs : list (list f64)) (status : Z) :
  iteration a kstoc HOR s = Done (Returns ts xs status) ->
  status = 2 \/ status = 3.
Proof.
  intros H.
  unfold Engine.iteration, Engine.burst, Engine.leap, Engine.commit in H.
  repeat break_match_in H; try discriminate;
    injection H as <- <- <-; auto.
  match goal with
  | E : (_ =? 3) || (_ =? 2) = true |- _ =>
      apply orb_true_iff in E; destruct E as [E | E];
      apply Z.eqb_eq in E; auto
  end.
Qed.

Lemma loop_status (fuel : nat) (a : args) (kstoc : list f64) (HOR : list Z)
    (s : st rng) (ts : list f64) (xs : list (list f64)) (status : Z) :
  loop fuel a kstoc HOR s = Returns ts xs status ->
  status = 1 \/ status = 2 \/ status = 3.
Proof.
  revert s. induction fuel as [| fuel IH]; intros s H; simpl in H.
  - destruct (ite s <? max_iter a)%nat; [discriminate |].
    injection H as <- <- <-. auto.
  - destruct (ite s <? max_iter a)%nat.
    + destruct (iteration a kstoc HOR s) as [s' | r] eqn:E.
      * exact (IH s' H).
      * subst r. apply iteration_status in E. tauto.
    + injection H as <- <- <-. auto.
Qed.

(** X1.  Whatever the collaborators do, the status of a call is -2, 1, 2 or 3:
    never -3, and never -1. *)
Lemma tau_adaptive_status (fuel : nat) (a : args) (ambient : rng)
    (ts : list f64) (xs : list (list f64)) (status : Z) :
  tau_adaptive fuel a ambient = Returns ts xs status ->
  status = -2 \/ status = 1 \/ status = 2 \/ status = 3.
Proof.
  unfold Engine.tau_adaptive. intros H.
  destruct (max_iter a); [discriminate |].
  destruct (first_row _ _); [| discriminate].
  destruct (_ && _).
  - injection H as <- <- <-. auto.
  - apply loop_status in H. tauto.
Qed.

(** More fuel does not change a run that ended. *)
Lemma loop_more_fuel (fuel : nat) (a : args) (kstoc : list f64)
    (HOR : list Z) (s : st rng) :
  loop fuel a kstoc HOR s <> OutOfFuel ->
  loop (S fuel) a kstoc HOR s = loop fuel a kstoc HOR s.
Proof.
  revert s. induction fuel as [| fuel IH]; intros s H.
  - simpl in *. destruct (ite s <? max_iter a)%nat; [congruence | reflexivity].
  - change (loop (S (S fuel)) a kstoc HOR s)
      with (if (ite s <? max_iter a)%nat
            then match iteration a kstoc HOR s with
                 | Continue s' => loop (S fuel) a kstoc HOR s'
                 | Done r => r
                 end
            else Returns (firstn (ite s) (t s)) (firstn (ite s) (x s)) 1).
    simpl in H |- *.
    destruct (ite s <? max_iter a)%nat; [| reflexivity].
    destruct (iteration a kstoc HOR s) as [s' | r]; [| reflexivity].
    apply IH. exact H.
Qed.

Lemma loop_fuel_le (f1 f2 : nat) (a : args) (kstoc : list f64)
    (HOR : list Z) (s : st rng) :
  (f1 <= f2)%nat ->
  loop f1 a kstoc HOR s <> OutOfFuel ->
  loop f2 a kstoc HOR s = loop f1 a kstoc HOR s.
Proof.
  induction 1 as [| f2 Hle IH]; intros H; [reflexivity |].
  rewrite loop_more_fuel; [exact (IH H) |].
  rewrite (IH H). exact H.
Qed.

Lemma tau_adaptive_fuel_le (f1 f2 : nat) (a : args) (amb1 amb2 : rng) :
  (f1 <= f2)%nat ->
  tau_adaptive f1 a amb1 <> OutOfFuel ->
  tau_adaptive f2 a amb2 = tau_adaptive f1 a amb1.
Proof.
  unfold Engine.tau_adaptive. intros Hle H.
  destruct (max_iter a); [reflexivity |].
  destruct (first_row _ _); [| reflexivity].
  destruct (_ && _); [reflexivity |].
  apply loop_fuel_le; assumption.
Qed.

(** The fuel is the model's, not the program's: two runs of the model on
    the same arguments and with the same collaborators that both come to an
    end agree, however much fuel each was given.  The state [seed_rng]
    leaves is the same in both by the type of [seed_rng]; what happens when
    seeding does not reset all there is to reset is the subject of
    [Process]. *)
Theorem tau_adaptive_reproducible (f1 f2 : nat) (a : args)
    (amb1 amb2 : rng) :
  tau_adaptive f1 a amb1 <> OutOfFuel ->
  tau_adaptive f2 a amb2 <> OutOfFuel ->
  tau_adaptive f1 a amb1 = tau_adaptive f2 a amb2.
Proof.
  intros H1 H2. destruct (Nat.le_ge_cases f1 f2) as [Hle | Hle].
  - symmetry. apply tau_adaptive_fuel_le; assumption.
  - apply tau_adaptive_fuel_le; assumption.
Qed.


(** ** The exit test of the leap branch *)

Lemma set_at_length {A} (i : nat) (w : A) (a : list A) :
  length (set_at i w a) = length a.
Proof.
  revert i. induction a as [| h a IH]; intros [| i]; simpl; auto.
Qed.

Lemma set_at_other {A} (i j : nat) (w : A) (a : list A) :
  i <> j -> nth_error (set_at i w a) j = nth_error a j.
Proof.
  revert i j.
  induction a as [| h a IH]; intros [| i] [| j] H; simpl; auto;
    congruence.
Qed.

Lemma set_slice_after {A} (i j : nat) (b a : list A) :
  (i + length b <= length a)%nat -> (i + length b <= j)%nat ->
  nth_error (set_slice i b a) j = nth_error a j.
Proof.
  intros Hfit Hj. unfold set_slice.
  assert (length (firstn i a) = i) as Hi by (apply firstn_length_le; lia).
  rewrite nth_error_app2 by lia. rewrite Hi.
  rewrite nth_error_app2 by lia.
  rewrite nth_error_skipn. f_equal. lia.
Qed.

Lemma entry_untouched (a : args) (x0 : list f64) (n : nat) :
  untouched (S n) (entry_state rng seed_rng a x0 n).
Proof.
  split; [apply repeat_length |].
  intros i _ Hi. apply nth_error_repeat. exact Hi.
Qed.

(** With [max_t >= 0] the exit test after a leap never fires: the slot it
    reads holds 0, or lies past the buffer. *)
Lemma commit_never_returns (a : args) (s : st rng) (tau : f64) (K : list Z)
    (r : rng) (m : nat) :
  untouched m s ->
  fgt (Fin 0) (max_t a) = false ->
  (exists s', commit a s tau K r = Continue s' /\ untouched m s')
  \/ commit a s tau K r = Done (Raises IndexError).
Proof.
  intros [Hlen Hz] Hm. unfold Engine.commit.
  set (t' := set_at (ite s) _ (t s)).
  destruct (nth_error t' (S (ite s))) as [ti |] eqn:E; [| right; reflexivity].
  assert (S (ite s) < m)%nat as Hlt.
  { rewrite <- Hlen, <- (set_at_length (ite s)
      (fadd (nth (ite s - 1) (t s) (Fin 0)) tau) (t s)).
    apply nth_error_Some. fold t'. congruence. }
  assert (ti = Fin 0) as ->.
  { unfold t' in E. rewrite set_at_other in E by lia.
    rewrite Hz in E by lia. congruence. }
  rewrite Hm. left. eexists. split; [reflexivity |].
  split; simpl.
  - fold t'. unfold t'. rewrite set_at_length. exact Hlen.
  - intros i Hi Him. fold t'. unfold t'. rewrite set_at_other by lia.
    apply Hz; lia.
Qed.

Section NoStatus2.

Hypothesis exact_engine_never_2 :
  forall R P x0 k mt mi v sd fl r,
    snd (fst (direct_naive R P x0 k mt mi v sd fl r)) <> 2.

Lemma burst_without_2 (a : args) (s : st rng) :
  (ite s < max_iter a)%nat ->
  untouched (max_iter a) s ->
  match burst a s with
  | Continue s' => untouched (max_iter a) s'
  | Done (Returns _ _ status) => status <> 2
  | Done _ => True
  end.
Proof.
  intros Hite [Hlen Hz]. unfold Engine.burst.
  pose proof (exact_engine_never_2 (react_stoic a) (prod_stoic a)
    (nth (ite s - 1) (x s) []) (k_det a)
    (fsub (max_t a) (nth (ite s - 1) (t s) (Fin 0)))
    (py_min 100 (max_iter a - ite s)) (volume a) (seed a) (chem_flag a)
    (gen s)) as Hne.
  destruct (direct_naive _ _ _ _ _ _ _ _ _ _) as [[[t_ssa x_ssa] status] r'].
  simpl in Hne.
  destruct (max_iter a - ite s <? length t_ssa)%nat eqn:Efit; [exact I |].
  apply Nat.ltb_ge in Efit.
  destruct (rows_fit _ _ _); simpl; [| exact I].
  destruct ((status =? 3) || (status =? 2)) eqn:Es; [exact Hne |].
  split; simpl.
  - rewrite set_slice_length; [exact Hlen | lia].
  - intros i Hi Him. rewrite set_slice_after by lia. apply Hz; lia.
Qed.

Lemma iteration_without_2 (a : args) (kstoc : list f64) (HOR : list Z)
    (s : st rng) :
  fgt (Fin 0) (max_t a) = false ->
  (ite s < max_iter a)%nat ->
  untouched (max_iter a) s ->
  match iteration a kstoc HOR s with
  | Continue s' => untouched (max_iter a) s'
  | Done (Returns _ _ status) => status <> 2
  | Done _ => True
  end.
Proof.
  intros Hm Hite Hs. unfold Engine.iteration.
  destruct (flt _ tiny); [discriminate |].
  destruct (L_vector _ _ _); [| exact I].
  destruct (candidate _ _ _ _ _) as [e | [taup g']]; [exact I |].
  assert (untouched (max_iter a) (with_g s g')) as Hs' by exact Hs.
  change {| ite := ite s; t := t s; x := x s; g := g'; gen := gen s |}
    with (with_g s g').
  destruct (small_step _ _); [apply burst_without_2; assumption |].
  unfold Engine.leap.
  destruct (rand _) as [u r1]. destruct (feqb u (Fin 0)); [exact I |].
  destruct (flt taup _).
  - destruct (fill_K _ _ _ _ _ _) as [[K |] r2]; [| exact I].
    destruct (commit_never_returns a (with_g s g') taup K r2 _ Hs' Hm)
      as [[s' [-> Hu]] | ->]; [exact Hu | exact I].
  - destruct (roulette_selection _ _ _) as [j r2].
    destruct (fill_K _ _ _ _ _ _) as [[K |] r3]; [| exact I].
    match goal with
    | |- context [commit a (with_g s g') ?tau K r3] =>
        destruct (commit_never_returns a (with_g s g') tau K r3 _ Hs' Hm)
          as [[s' [-> Hu]] | ->]; [exact Hu | exact I]
    end.
Qed.

Lemma loop_without_2 (fuel : nat) (a : args) (kstoc : list f64)
    (HOR : list Z) (s : st rng) (ts : list f64) (xs : list (list f64))
    (status : Z) :
  fgt (Fin 0) (max_t a) = false ->
  untouched (max_iter a) s ->
  loop fuel a kstoc HOR s = Returns ts xs status ->
  status <> 2.
Proof.
  intros Hm. revert s.
  induction fuel as [| fuel IH]; intros s Hs H; simpl in H.
  - destruct (ite s <? max_iter a)%nat; [discriminate |].
    injection H as <- <- <-. discriminate.
  - destruct (ite s <? max_iter a)%nat eqn:Elt.
    + apply Nat.ltb_lt in Elt.
      pose proof (iteration_without_2 a kstoc HOR s Hm Elt Hs) as Hit.
      destruct (iteration a kstoc HOR s) as [s' | r].
      * exact (IH s' Hit H).
      * subst r. exact Hit.
    + injection H as <- <- <-. discriminate.
Qed.

(** X2.  If the exact engine never reports the time budget as crossed, then,
    for [max_t >= 0], neither does [tau_adaptive], however far its leaps
    take the time past [max_t]. *)
Lemma leaps_never_report_the_time_budget (fuel : nat) (a : args)
    (ambient : rng) (ts : list f64) (xs : list (list f64)) (status : Z) :
  fgt (Fin 0) (max_t a) = false ->
  tau_adaptive fuel a ambient = Returns ts xs status ->
  status <> 2.
Proof.
  intros Hm. unfold Engine.tau_adaptive.
  destruct (max_iter a) as [| n] eqn:En; [discriminate |].
  destruct (first_row _ _) as [x0 |]; [| discriminate].
  destruct (_ && _).
  - intros H. injection H as <- <- <-. discriminate.
  - intros H. eapply loop_without_2; [exact Hm | | exact H].
    rewrite En. apply entry_untouched.
Qed.

End NoStatus2.

End Runs.

(* ------------------------------------------------------------------ *)
(** * The statements above on the scripted collaborators *)

Lemma negative_state_is_stored_witness :
  Scripted.run 1 (dimerisation (Fin 1) 3) O
  = Engine.loop Scripted.rng Scripted.rand Scripted.poisson Scripted.np_log
      Scripted.roulette_selection Scripted.direct_naive
      0 (dimerisation (Fin 1) 3) [Fin 1] [-2]
      {| Engine.ite := 2;
         Engine.t := [Fin 0;
                      fadd (Fin 0)
                        (Engine.taupp_of Scripted.np_log (Fin 1) (Fin (1 # 2)));
                      Fin 0];
         Engine.x := [[Fin 1]; [Fin (-1)]; [Fin 0]];
         Engine.g := None;
         Engine.gen := 2%nat |}.
Proof.
  unfold Scripted.run.
  apply (negative_state_is_stored Scripted.rng Scripted.seed_rng
           Scripted.rand Scripted.poisson Scripted.np_log Scripted.get_kstoc
           Scripted.roulette_selection Scripted.direct_naive
           0 0 O 1%nat 2%nat 1 (Fin (1 # 2)) (Fin 1)).
  - reflexivity.
  - reflexivity.
  - vm_compute. discriminate.
  - reflexivity.
  - reflexivity.
  - vm_compute. reflexivity.
  - reflexivity.
  - reflexivity.
Defined.

Lemma leap_past_max_t_keeps_looping_witness :
  Scripted.run 1 (decay 5 (Fin (1 # 100)) 3) O
  = Engine.loop Scripted.rng Scripted.rand Scripted.poisson Scripted.np_log
      Scripted.roulette_selection Scripted.direct_naive
      0 (decay 5 (Fin (1 # 100)) 3) [Fin 1] [1]
      {| Engine.ite := 2;
         Engine.t := [Fin 0;
                      fadd (Fin 0)
                        (Engine.taupp_of Scripted.np_log (Fin 5)
                                         (Fin (1 # 2)));
                      Fin 0];
         Engine.x := [[Fin 5]; [Fin 4]; [Fin 0]];
         Engine.g := None;
         Engine.gen := 2%nat |}.
Proof.
  unfold Scripted.run.
  apply (leap_past_max_t_keeps_looping Scripted.rng Scripted.seed_rng
           Scripted.rand Scripted.poisson Scripted.np_log Scripted.get_kstoc
           Scripted.roulette_selection Scripted.direct_naive
           0 0 O 1%nat 2%nat (Fin (1 # 2)) (Fin (1 # 100)));
    vm_compute; reflexivity.
Defined.

Lemma zero_propensity_in_loop_is_status_3_witness :
  Scripted.run 1 (two_decays (Fin 1) 2) O
  = Engine.Returns [Fin 0] [[Fin 5; Fin 0]] 3.
Proof.
  unfold Scripted.run.
  apply (zero_propensity_in_loop_is_status_3 Scripted.rng Scripted.seed_rng
           Scripted.rand Scripted.poisson Scripted.np_log Scripted.get_kstoc
           Scripted.roulette_selection Scripted.direct_naive
           0 0 O (Fin 1)).
  reflexivity.
Defined.

Lemma burst_exit_returns_whole_buffers_witness :
  Scripted.run 1 (decay 40 (Fin 1) 3) O
  = Engine.Returns (set_slice 1 [Fin 0] (repeat (Fin 0) 3))
                   (set_slice 1 [[Fin 40]] ([Fin 40] :: repeat [Fin 0] 2))
                   2
  /\ length (set_slice 1 [Fin 0] (repeat (Fin 0) 3)) = 3%nat
  /\ length (set_slice 1 [[Fin 40]] ([Fin 40] :: repeat [Fin 0] 2)) = 3%nat
  /\ (1 + length [Fin 0] < 3)%nat.
Proof.
  unfold Scripted.run.
  apply (burst_exit_returns_whole_buffers Scripted.rng Scripted.seed_rng
           Scripted.rand Scripted.poisson Scripted.np_log Scripted.get_kstoc
           Scripted.roulette_selection Scripted.direct_naive
           0 1 O 1%nat (Fin 1) [Fin 0] [[Fin 40]] 2).
  - reflexivity.
  - reflexivity.
  - simpl. lia.
  - reflexivity.
  - reflexivity.
Defined.

Lemma burst_times_restart_witness :
  exists ts xs,
    Scripted.run 2 (chain (Fin 1) 3) O = Engine.Returns ts xs 2
    /\ nth_error ts 1
       = Some (fadd (Fin 0)
                 (Engine.taupp_of Scripted.np_log (Fin 2) (Fin (1 # 2))))
    /\ nth_error ts 2 = Some (Fin 0)
    /\ non_decreasing ts = false.
Proof.
  unfold Scripted.run.
  apply (burst_times_restart Scripted.rng Scripted.seed_rng
           Scripted.rand Scripted.poisson Scripted.np_log Scripted.get_kstoc
           Scripted.roulette_selection Scripted.direct_naive
           0 0 O 1%nat 2%nat 3%nat (Fin (1 # 2)) (Fin 1) (Fin 0)
           [] [[Fin 0; Fin 2]] 2);
    vm_compute; reflexivity.
Defined.

Lemma all_critical_iteration_witness :
  let a := decay 5 (Fin 1) 3 in
  let s := Engine.entry_state Scripted.rng Scripted.seed_rng a [Fin 5] 2 in
  Engine.iteration Scripted.rng Scripted.rand Scripted.poisson
    Scripted.np_log Scripted.roulette_selection Scripted.direct_naive
    a [Fin 1] [1] s
  = (if small_step HIGH (fsum [Fin 5])
     then Engine.burst Scripted.rng Scripted.direct_naive a s
     else Engine.leap Scripted.rng Scripted.rand Scripted.poisson
            Scripted.np_log Scripted.roulette_selection a s [Fin 5]
            (fsum [Fin 5]) (map negb (crit (Engine.nc a) [Fin 5] [Fin 5]))
            HIGH)
  /\ (forall q, fsum [Fin 5] = Fin q -> (1 # 10 ^ 19 <= q)%Q ->
      Engine.iteration Scripted.rng Scripted.rand Scripted.poisson
        Scripted.np_log Scripted.roulette_selection Scripted.direct_naive
        a [Fin 1] [1] s
      = Engine.leap Scripted.rng Scripted.rand Scripted.poisson
          Scripted.np_log Scripted.roulette_selection a s [Fin 5]
          (fsum [Fin 5]) (map negb (crit (Engine.nc a) [Fin 5] [Fin 5]))
          HIGH).
Proof.
  intros a s.
  apply (all_critical_iteration Scripted.rng Scripted.rand Scripted.poisson
           Scripted.np_log Scripted.roulette_selection Scripted.direct_naive
           a [Fin 1] [1] s [Fin 5] [Fin 5]);
    reflexivity.
Defined.

Lemma tau_adaptive_reproducible_witness :
  Scripted.run 6 (decay 5 (Fin 1) 10) 0%nat
  = Scripted.run 9 (decay 5 (Fin 1) 10) 7%nat.
Proof.
  unfold Scripted.run.
  apply (tau_adaptive_reproducible Scripted.rng Scripted.seed_rng
           Scripted.rand Scripted.poisson Scripted.np_log Scripted.get_kstoc
           Scripted.roulette_selection Scripted.direct_naive
           6 9 (decay 5 (Fin 1) 10) 0%nat 7%nat);
    vm_compute; discriminate.
Defined.

(** C6 fails as stated: a decay with 5 molecules left has its only
    reaction critical; the candidate is the finite [HIGH], the test for the
    exact engine fails, and the iteration commits a step that fires the
    reaction once. *)
Lemma all_critical_commits_a_step :
  crit 10 [Fin 5] (propensities [[1]] [Fin 1] [Fin 5]) = [true]
  /\ small_step HIGH (fsum (propensities [[1]] [Fin 1] [Fin 5])) = false
  /\ Engine.iteration Scripted.rng Scripted.rand Scripted.poisson
       Scripted.np_log Scripted.roulette_selection Scripted.direct_naive
       (decay 5 (Fin 1) 3) [Fin 1] [1]
       (Engine.entry_state Scripted.rng Scripted.seed_rng
          (decay 5 (Fin 1) 3) [Fin 5] 2)
     = Engine.Continue
         {| Engine.ite := 2;
            Engine.t := [Fin 0; Fin (693147 # 5000000); Fin 0];
            Engine.x := [[Fin 5]; [Fin 4]; [Fin 0]];
            Engine.g := None;
            Engine.gen := 2%nat |}.
Proof. repeat split; vm_compute; reflexivity. Qed.

(* ------------------------------------------------------------------ *)
(** * Further properties of the engine *)

Section MoreRuns.
Import Engine.
Variable rng : Type.
Variable seed_rng : Z -> rng.
Variable rand : rng -> f64 * rng.
Variable poisson : f64 -> rng -> option Z * rng.
Variable np_log : f64 -> f64.
Variable get_kstoc : matrix -> list f64 -> f64 -> bool -> list f64.
Variable roulette_selection : list f64 -> list f64 -> rng -> Z * rng.
Variable direct_naive :
  matrix -> matrix -> list f64 -> list f64 -> f64 -> nat -> f64 -> Z -> bool ->
  rng -> (list f64 * list (list f64) * Z) * rng.

Local Abbreviation tau_adaptive :=
  (Engine.tau_adaptive rng seed_rng rand poisson np_log get_kstoc
                       roulette_selection direct_naive).
Local Abbreviation loop :=
  (Engine.loop rng rand poisson np_log roulette_selection direct_naive).
Local Abbreviation iteration :=
  (Engine.iteration rng rand poisson np_log roulette_selection direct_naive).
Local Abbreviation leap :=
  (Engine.leap rng rand poisson np_log roulette_selection).
Local Abbreviation burst := (Engine.burst rng direct_naive).
Local Abbreviation fill_K := (Engine.fill_K rng poisson).
Local Abbreviation commit := (Engine.commit rng).
Local Abbreviation candidate := (Engine.candidate rng).

(** ** The firing counts of a leap *)

(** X7.  The counts [K] are never negative as long as the Poisson sampler's are
    not, and there is one per reaction. *)
Theorem firing_counts_are_counts (tau : f64) (j_crit : option Z)
    (not_crit : list bool) (prop : list f64) (ind : nat) (r r' : rng)
    (K : list Z) :
  (forall lam g k g', poisson lam g = (Some k, g') -> 0 <= k) ->
  length not_crit = length prop ->
  fill_K tau j_crit ind not_crit prop r = (Some K, r') ->
  Forall (fun k => 0 <= k) K /\ length K = length prop.
Proof.
  intros Hpos. revert prop ind r K.
  induction not_crit as [| b not_crit IH];
    intros [| p prop] ind r K Hlen H; simpl in Hlen; try discriminate.
  - simpl in H. injection H as <- <-. split; [constructor | reflexivity].
  - injection Hlen as Hlen. cbn [Engine.fill_K] in H.
    destruct b.
    + destruct (poisson (fmul p tau) r) as [[k |] r1] eqn:Ep;
        [| discriminate].
      destruct (fill_K tau j_crit (S ind) not_crit prop r1)
        as [[K' |] r2] eqn:Er; [| discriminate].
      injection H as <- <-.
      destruct (IH prop (S ind) r1 K' Hlen Er) as [Hall Hl].
      split; [constructor; [exact (Hpos _ _ _ _ Ep) | exact Hall] |].
      simpl. rewrite Hl. reflexivity.
    + destruct (fill_K tau j_crit (S ind) not_crit prop r)
        as [[K' |] r2] eqn:Er; [| discriminate].
      injection H as <- <-.
      destruct (IH prop (S ind) r K' Hlen Er) as [Hall Hl].
      split.
      * constructor; [| exact Hall].
        destruct j_crit as [j |]; [| lia].
        destruct (Z.of_nat ind =? j); lia.
      * simpl. rewrite Hl. reflexivity.
Qed.

(** X8.  A critical reaction fires once if it is the one the roulette picked and
    not at all otherwise; when the leap takes [taup] (no pick) no critical
    reaction fires. *)
Theorem critical_reactions_fire_at_most_once (tau : f64)
    (j_crit : option Z) (not_crit : list bool) (prop : list f64)
    (ind : nat) (r r' : rng) (K : list Z) (i : nat) :
  fill_K tau j_crit ind not_crit prop r = (Some K, r') ->
  nth_error not_crit i = Some false ->
  (i < length prop)%nat ->
  nth_error K i
  = Some (match j_crit with
          | Some j => if Z.of_nat (ind + i) =? j then 1 else 0
          | None => 0
          end).
Proof.
  revert prop ind r K i.
  induction not_crit as [| b not_crit IH];
    intros [| p prop] ind r K i H Hi Hlt; simpl in Hlt;
    try (destruct i; discriminate); try lia.
  cbn [Engine.fill_K] in H.
  destruct b.
  - destruct (poisson (fmul p tau) r) as [[k |] r1]; [| discriminate].
    destruct (fill_K tau j_crit (S ind) not_crit prop r1)
      as [[K' |] r2] eqn:Er; [| discriminate].
    injection H as <- <-.
    destruct i as [| i]; [discriminate |]. simpl in Hi |- *.
    rewrite (IH prop (S ind) r1 K' i Er Hi) by lia.
    replace (S ind + i)%nat with (ind + S i)%nat by lia. reflexivity.
  - destruct (fill_K tau j_crit (S ind) not_crit prop r)
      as [[K' |] r2] eqn:Er; [| discriminate].
    injection H as <- <-.
    destruct i as [| i]; simpl in Hi |- *.
    + rewrite Nat.add_0_r. reflexivity.
    + rewrite (IH prop (S ind) r K' i Er Hi) by lia.
      replace (S ind + i)%nat with (ind + S i)%nat by lia. reflexivity.
Qed.

(** ** The shape of what is returned *)

Lemma firstn_head {A} (n : nat) (l : list A) :
  (1 <= n)%nat -> nth_error (firstn n l) 0 = nth_error l 0.
Proof. destruct n as [| n]; [lia |]. destruct l; reflexivity. Qed.

Lemma set_slice_head {A} (i : nat) (b a : list A) :
  (1 <= i)%nat -> (1 <= length a)%nat ->
  nth_error (set_slice i b a) 0 = nth_error a 0.
Proof.
  intros Hi Ha. unfold set_slice.
  destruct i as [| i]; [lia |].
  destruct a; [simpl in Ha; lia | reflexivity].
Qed.

Lemma prefix_shape (a : args) (x0 : list f64) (s : st rng) :
  well_shaped a x0 s ->
  trajectory_shape (max_iter a) x0 (firstn (ite s) (t s))
                   (firstn (ite s) (x s)).
Proof.
  intros (Ht & Hx & Hi & Ht0 & Hx0). unfold trajectory_shape.
  rewrite !firstn_length_le by lia.
  rewrite !firstn_head by lia. auto.
Qed.

Lemma entry_well_shaped (a : args) (x0 : list f64) (n : nat) :
  max_iter a = S n ->
  well_shaped a x0 (entry_state rng seed_rng a x0 n).
Proof.
  intros Hn. unfold well_shaped, entry_state. simpl.
  rewrite !repeat_length, Hn. repeat split; lia.
Qed.

Lemma commit_keeps_shape (a : args) (x0 : list f64) (s : st rng)
    (tau : f64) (K : list Z) (r : rng) :
  well_shaped a x0 s ->
  match commit a s tau K r with
  | Continue s' => well_shaped a x0 s'
  | Done (Returns ts xs _) => trajectory_shape (max_iter a) x0 ts xs
  | Done _ => True
  end.
Proof.
  intros (Ht & Hx & Hi & Ht0 & Hx0). unfold Engine.commit.
  set (t' := set_at (ite s) _ (t s)).
  set (x' := set_at (ite s) _ (x s)).
  assert (length t' = max_iter a) as Ht'
    by (unfold t'; rewrite set_at_length; exact Ht).
  assert (length x' = max_iter a) as Hx'
    by (unfold x'; rewrite set_at_length; exact Hx).
  assert (nth_error t' 0 = Some (Fin 0)) as Ht0'
    by (unfold t'; rewrite set_at_other by lia; exact Ht0).
  assert (nth_error x' 0 = Some x0) as Hx0'
    by (unfold x'; rewrite set_at_other by lia; exact Hx0).
  destruct (nth_error t' (S (ite s))) as [ti |] eqn:E; [| exact I].
  assert (S (ite s) < max_iter a)%nat as Hlt.
  { rewrite <- Ht'. apply nth_error_Some. congruence. }
  destruct (fgt ti (max_t a)).
  - unfold trajectory_shape. rewrite !firstn_length_le by lia.
    rewrite !firstn_head by lia. repeat split; auto; lia.
  - unfold well_shaped. simpl. repeat split; auto; lia.
Qed.

Lemma burst_keeps_shape (a : args) (x0 : list f64) (s : st rng) :
  well_shaped a x0 s ->
  match burst a s with
  | Continue s' => well_shaped a x0 s'
  | Done (Returns ts xs _) => trajectory_shape (max_iter a) x0 ts xs
  | Done _ => True
  end.
Proof.
  intros (Ht & Hx & Hi & Ht0 & Hx0). unfold Engine.burst.
  destruct (direct_naive _ _ _ _ _ _ _ _ _ _) as [[[t_ssa x_ssa] status] r'].
  destruct (max_iter a - ite s <? length t_ssa)%nat eqn:Efit; [exact I |].
  apply Nat.ltb_ge in Efit.
  destruct (rows_fit _ _ _) eqn:Er; simpl; [| exact I].
  assert (length x_ssa = length t_ssa) as Hxl.
  { unfold rows_fit in Er. apply andb_true_iff in Er.
    destruct Er as [Er _]. apply Nat.eqb_eq. exact Er. }
  assert (length (set_slice (ite s) t_ssa (t s)) = max_iter a) as Ht'
    by (rewrite set_slice_length; lia).
  assert (length (set_slice (ite s) x_ssa (x s)) = max_iter a) as Hx'
    by (rewrite set_slice_length; lia).
  destruct ((status =? 3) || (status =? 2)).
  - unfold trajectory_shape. rewrite Ht', Hx', !set_slice_head by lia.
    repeat split; auto; lia.
  - unfold well_shaped. cbn [ite t x].
    rewrite Ht', Hx', !set_slice_head by lia.
    repeat split; auto; lia.
Qed.

Lemma iteration_keeps_shape (a : args) (kstoc : list f64) (HOR : list Z)
    (x0 : list f64) (s : st rng) :
  well_shaped a x0 s ->
  match iteration a kstoc HOR s with
  | Continue s' => well_shaped a x0 s'
  | Done (Returns ts xs _) => trajectory_shape (max_iter a) x0 ts xs
  | Done _ => True
  end.
Proof.
  intros Hs. unfold Engine.iteration.
  destruct (flt _ tiny); [apply prefix_shape; exact Hs |].
  destruct (L_vector _ _ _); [| exact I].
  destruct (candidate _ _ _ _ _) as [e | [taup g']]; [exact I |].
  assert (well_shaped a x0 (with_g s g')) as Hs' by exact Hs.
  change {| ite := ite s; t := t s; x := x s; g := g'; gen := gen s |}
    with (with_g s g').
  destruct (small_step _ _); [apply burst_keeps_shape; exact Hs' |].
  unfold Engine.leap.
  destruct (rand _) as [u r1]. destruct (feqb u (Fin 0)); [exact I |].
  destruct (flt taup _).
  - destruct (fill_K _ _ _ _ _ _) as [[K |] r2]; [| exact I].
    apply commit_keeps_shape. exact Hs'.
  - destruct (roulette_selection _ _ _) as [j r2].
    destruct (fill_K _ _ _ _ _ _) as [[K |] r3]; [| exact I].
    apply commit_keeps_shape. exact Hs'.
Qed.

Lemma loop_keeps_shape (fuel : nat) (a : args) (kstoc : list f64)
    (HOR : list Z) (x0 : list f64) (s : st rng) (ts : list f64)
    (xs : list (list f64)) (status : Z) :
  well_shaped a x0 s ->
  loop fuel a kstoc HOR s = Returns ts xs status ->
  trajectory_shape (max_iter a) x0 ts xs.
Proof.
  revert s. induction fuel as [| fuel IH]; intros s Hs H; simpl in H.
  - destruct (ite s <? max_iter a)%nat; [discriminate |].
    injection H as <- <- <-. apply prefix_shape. exact Hs.
  - destruct (ite s <? max_iter a)%nat.
    + pose proof (iteration_keeps_shape a kstoc HOR x0 s Hs) as Hit.
      destruct (iteration a kstoc HOR s) as [s' | r].
      * exact (IH s' Hit H).
      * subst r. exact Hit.
    + injection H as <- <- <-. apply prefix_shape. exact Hs.
Qed.

(** X5.  Whatever a call returns, and with whichever status, holds as many
    states as times, at least one and at most [max_iter] of them, and
    starts with time 0 and the initial state. *)
Theorem returned_trajectory_shape (fuel : nat) (a : args) (ambient : rng)
    (ts : list f64) (xs : list (list f64)) (status : Z) :
  tau_adaptive fuel a ambient = Returns ts xs status ->
  exists x0,
    first_row (length (react_stoic a)) (init_state a) = Some x0
    /\ trajectory_shape (max_iter a) x0 ts xs.
Proof.
  unfold Engine.tau_adaptive. intros H.
  destruct (max_iter a) as [| n] eqn:En; [discriminate |].
  destruct (first_row _ _) as [x0 |]; [| discriminate].
  exists x0. split; [reflexivity |].
  destruct (_ && _).
  - injection H as <- <- <-. unfold trajectory_shape. simpl.
    repeat split; lia.
  - rewrite <- En. eapply loop_keeps_shape; [| exact H].
    apply entry_well_shaped. exact En.
Qed.

(** ** The last slot of the buffer *)

Lemma set_at_past_end {A} (i : nat) (w : A) (a : list A) :
  length a = S i -> nth_error (set_at i w a) (S i) = None.
Proof.
  intros H. apply nth_error_None. rewrite set_at_length. lia.
Qed.

(** X6.  When only one slot of the buffer is free, steps 4 to 6 never return a
    trajectory: the uniform draw of 0 raises ZeroDivisionError, a rejected
    Poisson rate raises ValueError, and otherwise the step is written and
    the exit test reads [t[max_iter]], an IndexError. *)
Theorem leap_into_last_slot_raises (a : args) (s : st rng)
    (prop : list f64) (prop_sum taup : f64) (not_crit : list bool) :
  length (t s) = S (ite s) ->
  exists e, leap a s prop prop_sum not_crit taup = Done (Raises e).
Proof.
  intros Hlen. unfold Engine.leap.
  destruct (rand (gen s)) as [u r1].
  destruct (feqb u (Fin 0)); [eexists; reflexivity |].
  destruct (flt taup _).
  - destruct (fill_K _ _ _ _ _ _) as [[K |] r2]; [| eexists; reflexivity].
    exists IndexError. apply commit_past_the_buffer.
    apply set_at_past_end. exact Hlen.
  - destruct (roulette_selection _ _ _) as [j r2].
    destruct (fill_K _ _ _ _ _ _) as [[K |] r3]; [| eexists; reflexivity].
    exists IndexError. apply commit_past_the_buffer.
    apply set_at_past_end. exact Hlen.
Qed.

(** ** The argument eps *)

Lemma loop_ignores_eps (fuel : nat) (a : args) (e : f64)
    (kstoc : list f64) (HOR : list Z) (s : st rng) :
  loop fuel (with_eps a e) kstoc HOR s = loop fuel a kstoc HOR s.
Proof.
  revert s. induction fuel as [| fuel IH]; intros s; [reflexivity |].
  simpl.
  change (iteration (with_eps a e) kstoc HOR s)
    with (iteration a kstoc HOR s).
  change (max_iter (with_eps a e)) with (max_iter a).
  destruct (ite s <? max_iter a)%nat; [| reflexivity].
  destruct (iteration a kstoc HOR s); [apply IH | reflexivity].
Qed.

(** X9.  The argument [eps] has no effect on a call: the tolerance used is the
    constant 0.03. *)
Theorem eps_is_ignored (fuel : nat) (a : args) (e : f64) (ambient : rng) :
  tau_adaptive fuel (with_eps a e) ambient = tau_adaptive fuel a ambient.
Proof.
  unfold Engine.tau_adaptive.
  change (max_iter (with_eps a e)) with (max_iter a).
  destruct (max_iter a); [reflexivity |].
  change (react_stoic (with_eps a e)) with (react_stoic a).
  change (init_state (with_eps a e)) with (init_state a).
  destruct (first_row _ _); [| reflexivity].
  change (k_det (with_eps a e)) with (k_det a).
  change (volume (with_eps a e)) with (volume a).
  change (chem_flag (with_eps a e)) with (chem_flag a).
  change (seed (with_eps a e)) with (seed a).
  destruct (_ && _); [reflexivity |].
  apply loop_ignores_eps.
Qed.

(** ** Termination *)

Section Termination.

Hypothesis burst_is_not_empty :
  forall R P x0 k mt mi v sd fl r,
    fst (fst (fst (direct_naive R P x0 k mt mi v sd fl r))) <> [].

Lemma commit_advances (a : args) (s s' : st rng) (tau : f64) (K : list Z)
    (r : rng) :
  commit a s tau K r = Continue s' -> ite s' = S (ite s).
Proof.
  unfold Engine.commit.
  destruct (nth_error _ _); [| discriminate].
  destruct (fgt _ _); [discriminate |].
  intros H. injection H as <-. reflexivity.
Qed.

Lemma commit_ends (a : args) (s : st rng) (tau : f64) (K : list Z)
    (r : rng) :
  commit a s tau K r <> Done OutOfFuel.
Proof.
  unfold Engine.commit.
  destruct (nth_error _ _); [| discriminate].
  destruct (fgt _ _); discriminate.
Qed.

Lemma iteration_advances (a : args) (kstoc : list f64) (HOR : list Z)
    (s : st rng) :
  match iteration a kstoc HOR s with
  | Continue s' => (ite s < ite s')%nat
  | Done r => ended r = true
  end.
Proof.
  unfold Engine.iteration.
  destruct (flt _ tiny); [reflexivity |].
  destruct (L_vector _ _ _); [| reflexivity].
  destruct (candidate _ _ _ _ _) as [e | [taup g']]; [reflexivity |].
  change {| ite := ite s; t := t s; x := x s; g := g'; gen := gen s |}
    with (with_g s g').
  destruct (small_step _ _).
  - unfold Engine.burst.
    pose proof (burst_is_not_empty (react_stoic a) (prod_stoic a)
      (nth (ite (with_g s g') - 1) (x (with_g s g')) []) (k_det a)
      (fsub (max_t a) (nth (ite (with_g s g') - 1) (t (with_g s g')) (Fin 0)))
      (py_min 100 (max_iter a - ite (with_g s g'))) (volume a) (seed a)
      (chem_flag a) (gen (with_g s g'))) as Hne.
    destruct (direct_naive _ _ _ _ _ _ _ _ _ _)
      as [[[t_ssa x_ssa] status] r'].
    simpl in Hne.
    destruct (_ <? _)%nat; [reflexivity |].
    destruct (rows_fit _ _ _); simpl; [| reflexivity].
    destruct (_ || _); [reflexivity |].
    simpl. destruct t_ssa; [congruence | simpl; lia].
  - unfold Engine.leap.
    destruct (rand _) as [u r1]. destruct (feqb u (Fin 0)); [reflexivity |].
    destruct (flt taup _).
    + destruct (fill_K _ _ _ _ _ _) as [[K |] r2]; [| reflexivity].
      destruct (commit a (with_g s g') taup K r2) as [s' | r] eqn:E.
      * apply commit_advances in E. simpl in E. lia.
      * destruct r; try reflexivity.
        exfalso. exact (commit_ends _ _ _ _ _ E).
    + destruct (roulette_selection _ _ _) as [j r2].
      destruct (fill_K _ _ _ _ _ _) as [[K |] r3]; [| reflexivity].
      match goal with
      | |- context [commit a (with_g s g') ?tau K r3] =>
          destruct (commit a (with_g s g') tau K r3) as [s' | r] eqn:E
      end.
      * apply commit_advances in E. simpl in E. lia.
      * destruct r; try reflexivity.
        exfalso. exact (commit_ends _ _ _ _ _ E).
Qed.

Lemma loop_has_enough_fuel (fuel : nat) (a : args) (kstoc : list f64)
    (HOR : list Z) (s : st rng) :
  (max_iter a - ite s <= fuel)%nat ->
  ended (loop fuel a kstoc HOR s) = true.
Proof.
  revert s. induction fuel as [| fuel IH]; intros s Hf; simpl.
  - destruct (ite s <? max_iter a)%nat eqn:E; [| reflexivity].
    apply Nat.ltb_lt in E. lia.
  - destruct (ite s <? max_iter a)%nat eqn:E; [| reflexivity].
    apply Nat.ltb_lt in E.
    pose proof (iteration_advances a kstoc HOR s) as Hit.
    destruct (iteration a kstoc HOR s) as [s' | r]; [| exact Hit].
    apply IH. lia.
Qed.

(** X4.  If every burst of the exact engine brings back at least one point,
    the while loop ends: [max_iter] rounds of fuel are enough for the model
    to reach a return or an exception. *)
Theorem tau_adaptive_ends (a : args) (ambient : rng) :
  ended (tau_adaptive (max_iter a) a ambient) = true.
Proof.
  unfold Engine.tau_adaptive.
  destruct (max_iter a) as [| n] eqn:En; [reflexivity |].
  destruct (first_row _ _); [| reflexivity].
  destruct (_ && _); [reflexivity |].
  apply loop_has_enough_fuel. simpl. lia.
Qed.

End Termination.

End MoreRuns.

(* ------------------------------------------------------------------ *)
(** * Further properties of the classifier *)

Lemma where_from_In (mask : list bool) (i j : nat) :
  In j (where_from i mask)
  <-> exists p, j = (i + p)%nat /\ nth_error mask p = Some true.
Proof.
  revert i. induction mask as [| b mask IH]; intros i; simpl.
  - split; [tauto | intros [[| p] [_ H]]; discriminate].
  - assert (In j (where_from (S i) mask)
            <-> exists p, j = (i + S p)%nat /\ nth_error mask p = Some true)
      as IH'.
    { rewrite IH. split; intros [p [Hj Hp]]; exists p; split; auto; lia. }
    destruct b; simpl; rewrite IH'.
    + split.
      * intros [<- | [p [Hj Hp]]].
        -- exists O. split; [lia | reflexivity].
        -- exists (S p). auto.
      * intros [[| p] [Hj Hp]]; [left; lia | right; exists p; auto].
    + split.
      * intros [p [Hj Hp]]. exists (S p). auto.
      * intros [[| p] [Hj Hp]]; [discriminate | exists p; auto].
Qed.

Lemma where_In (mask : list bool) (j : nat) :
  In j (where_ mask) <-> nth_error mask j = Some true.
Proof.
  unfold where_. rewrite where_from_In. split.
  - intros [p [-> Hp]]. exact Hp.
  - intros H. exists j. auto.
Qed.

Lemma fold_max_spec (r : list Z) (a : Z) :
  In (fold_left Z.max r a) (a :: r)
  /\ a <= fold_left Z.max r a
  /\ (forall b, In b r -> b <= fold_left Z.max r a).
Proof.
  revert a. induction r as [| c r IH]; intros a; simpl.
  - split; [left; reflexivity | split; [lia | tauto]].
  - destruct (IH (Z.max a c)) as [Hin [Hle Hall]].
    split; [| split].
    + destruct Hin as [Hin | Hin]; [| right; right; exact Hin].
      destruct (Z.max_spec a c) as [[_ E] | [_ E]];
        [right; left; congruence | left; congruence].
    + lia.
    + intros b [<- | Hb]; [lia | auto].
Qed.

Lemma np_max_In (l : list Z) : l <> [] -> In (np_max l) l.
Proof.
  destruct l as [| a r]; [congruence |]. intros _.
  apply (fold_max_spec r a).
Qed.

Lemma fold_add_acc (l : list Z) (a : Z) :
  fold_left Z.add l a = a + zsum l.
Proof.
  unfold zsum. revert a. induction l as [| c l IH]; intros a; simpl.
  - lia.
  - rewrite IH, (IH c). lia.
Qed.

Lemma zsum_cons (c : Z) (l : list Z) : zsum (c :: l) = c + zsum l.
Proof. unfold zsum at 1. simpl. rewrite fold_add_acc. lia. Qed.

Lemma zsum_bounds (l : list Z) :
  Forall (fun c => 0 <= c) l ->
  0 <= zsum l /\ forall a, In a l -> a <= zsum l.
Proof.
  induction 1 as [| c l Hc Hl [IH0 IH]].
  - split; [reflexivity | intros a []].
  - rewrite zsum_cons. split; [lia |].
    intros a [<- | Ha]; [lia | specialize (IH a Ha); lia].
Qed.

Lemma zsum_nonpositive (l : list Z) :
  Forall (fun c => c <= 0) l -> zsum l <= 0.
Proof.
  induction 1 as [| c l Hc Hl IH]; [reflexivity |].
  rewrite zsum_cons. lia.
Qed.

Lemma nth_nonneg (row : list Z) (j : nat) :
  Forall (fun c => 0 <= c) row -> 0 <= nth j row 0.
Proof.
  intros H. destruct (Nat.lt_ge_cases j (length row)) as [Hlt | Hge].
  - rewrite Forall_forall in H. apply H. apply nth_In. exact Hlt.
  - rewrite nth_overflow by exact Hge. reflexivity.
Qed.

Lemma sum_axis0_nth (R : matrix) (j : nat) :
  (j < shape1 R)%nat -> nth j (sum_axis0 R) 0 = zsum (column R j).
Proof.
  intros Hj. unfold sum_axis0.
  set (f := fun j => zsum (column R j)).
  rewrite (nth_indep _ 0 (f O))
    by (rewrite length_map, length_seq; exact Hj).
  rewrite map_nth, seq_nth by exact Hj. reflexivity.
Qed.

(** In a matrix of non-negative coefficients no coefficient exceeds the
    order of its reaction. *)
Lemma coefficient_le_order (R : matrix) (row : list Z) (j : nat) :
  rectangular R -> nonnegative R -> In row R ->
  nth j row 0 <= nth j (sum_axis0 R) 0.
Proof.
  intros Hrect Hnn Hin.
  assert (length row = shape1 R) as Hlen
    by (unfold rectangular in Hrect; rewrite Forall_forall in Hrect; auto).
  destruct (Nat.lt_ge_cases j (shape1 R)) as [Hlt | Hge].
  - rewrite sum_axis0_nth by exact Hlt.
    apply zsum_bounds.
    + unfold column. apply Forall_forall. intros c Hc.
      apply in_map_iff in Hc. destruct Hc as [row' [<- Hrow']].
      apply nth_nonneg. unfold nonnegative in Hnn.
      rewrite Forall_forall in Hnn. auto.
    + unfold column. apply in_map_iff. exists row. auto.
  - rewrite nth_overflow by lia.
    rewrite (nth_overflow (sum_axis0 R)).
    + reflexivity.
    + unfold sum_axis0. rewrite length_map, length_seq. exact Hge.
Qed.

(** The orders among which [get_HOR] takes the maximum are those of the
    reactions the species is a reactant of. *)
Lemma this_orders_In (orders row : list Z) (o : Z) :
  In o (take 0 orders (where_ (map (fun c => 0 <? c) row)))
  <-> exists j, 0 < nth j row 0 /\ o = nth j orders 0.
Proof.
  unfold take. rewrite in_map_iff. split.
  - intros [j [<- Hj]]. exists j. split; [| reflexivity].
    apply where_In in Hj. rewrite nth_error_map in Hj.
    destruct (nth_error row j) as [c |] eqn:E; [| discriminate].
    injection Hj as Hj. apply Z.ltb_lt in Hj.
    rewrite (nth_error_nth _ _ _ E). exact Hj.
  - intros [j [Hpos ->]]. exists j. split; [reflexivity |].
    apply where_In. rewrite nth_error_map.
    destruct (nth_error row j) as [c |] eqn:E.
    + rewrite (nth_error_nth _ _ _ E) in Hpos. simpl.
      f_equal. apply Z.ltb_lt. exact Hpos.
    + apply nth_error_None in E. rewrite nth_overflow in Hpos by exact E.
      lia.
Qed.

(** The shape of the answer for one species. *)
Lemma HOR_of_cases (orders row : list Z) :
  let this_orders := take 0 orders (where_ (map (fun c => 0 <? c) row)) in
  (this_orders = [] /\ HOR_of orders row = 0)
  \/ (this_orders <> []
      /\ (HOR_of orders row = np_max this_orders
          \/ HOR_of orders row = -2
          \/ HOR_of orders row = -32
          \/ HOR_of orders row = -3)).
Proof.
  intros this_orders. unfold HOR_of. fold this_orders.
  destruct this_orders as [| o rest] eqn:E; [left; split; reflexivity |].
  right. split; [discriminate |].
  cbn [length Nat.eqb].
  destruct (np_max (o :: rest) =? 1); [left; reflexivity |].
  repeat match goal with
         | |- context [if ?c then _ else _] => destruct c
         end; auto.
Qed.

Lemma positive_sum_has_positive_entry (l : list Z) :
  0 < zsum l -> exists c, In c l /\ 0 < c.
Proof.
  induction l as [| c l IH]; [unfold zsum; simpl; lia |].
  rewrite zsum_cons. intros H.
  destruct (Z.lt_ge_cases 0 c) as [Hc | Hc].
  - exists c. split; [left; reflexivity | exact Hc].
  - destruct IH as [d [Hd Hpos]]; [lia |].
    exists d. split; [right; exact Hd | exact Hpos].
Qed.

(** The highest order found for a reactant is at least 1. *)
Lemma reactant_order_positive (R : matrix) (row : list Z) :
  rectangular R -> nonnegative R -> In row R ->
  forall o,
    In o (take 0 (sum_axis0 R) (where_ (map (fun c => 0 <? c) row))) ->
    1 <= o.
Proof.
  intros Hrect Hnn Hin o Ho.
  apply this_orders_In in Ho. destruct Ho as [j [Hpos ->]].
  pose proof (coefficient_le_order R row j Hrect Hnn Hin). lia.
Qed.

Lemma HOR_of_reactant (R : matrix) (row : list Z) :
  rectangular R -> nonnegative R -> In row R -> 0 < zsum row ->
  0 < HOR_of (sum_axis0 R) row
  \/ HOR_of (sum_axis0 R) row = -2
  \/ HOR_of (sum_axis0 R) row = -32
  \/ HOR_of (sum_axis0 R) row = -3.
Proof.
  intros Hrect Hnn Hin Hsum.
  destruct (positive_sum_has_positive_entry row Hsum) as [c [Hc Hpos]].
  destruct (In_nth row c 0 Hc) as [j [_ Hj]].
  assert (In (nth j (sum_axis0 R) 0)
             (take 0 (sum_axis0 R) (where_ (map (fun c => 0 <? c) row))))
    as Hmem.
  { apply this_orders_In. exists j. split; [lia | reflexivity]. }
  destruct (HOR_of_cases (sum_axis0 R) row) as [[E _] | [Hne Hcase]].
  - rewrite E in Hmem. destruct Hmem.
  - destruct Hcase as [E | Hcode]; [| tauto].
    left. rewrite E.
    pose proof (reactant_order_positive R row Hrect Hnn Hin _
                  (np_max_In _ Hne)). lia.
Qed.

(** X10.  For a rectangular matrix of non-negative coefficients, [HOR[i]] is 0
    exactly for the species whose row sums to 0, that is, for the species
    that the leap-size loop ([react_species]) does not visit. *)
Theorem HOR_is_zero_exactly_off_react_species (R : matrix) (i : nat)
    (row : list Z) :
  rectangular R -> nonnegative R ->
  nth_error R i = Some row ->
  (nth_error (get_HOR R) i = Some 0 <-> ~ In i (react_species R)).
Proof.
  intros Hrect Hnn Hrow.
  assert (In row R) as Hin by (eapply nth_error_In; exact Hrow).
  assert (nth_error (get_HOR R) i = Some (HOR_of (sum_axis0 R) row)) as Hget.
  { unfold get_HOR. rewrite nth_error_map, Hrow. reflexivity. }
  assert (In i (react_species R) <-> 0 < zsum row) as Hreact.
  { unfold react_species, sum_axis1. rewrite where_In, !nth_error_map, Hrow.
    simpl. split; intros H.
    - injection H as H. apply Z.ltb_lt. exact H.
    - f_equal. apply Z.ltb_lt. exact H. }
  rewrite Hget, Hreact. split.
  - intros H Hsum. injection H as H.
    destruct (HOR_of_reactant R row Hrect Hnn Hin Hsum); lia.
  - intros Hsum. f_equal.
    destruct (HOR_of_cases (sum_axis0 R) row) as [[_ E] | [Hne _]];
      [exact E |].
    exfalso. apply Hsum.
    pose proof (np_max_In _ Hne) as Hmem.
    apply this_orders_In in Hmem. destruct Hmem as [j [Hpos _]].
    assert (Forall (fun c => 0 <= c) row) as Hrn.
    { unfold nonnegative in Hnn. rewrite Forall_forall in Hnn. auto. }
    destruct (Nat.lt_ge_cases j (length row)) as [Hlt | Hge].
    + pose proof (proj2 (zsum_bounds row Hrn) _ (nth_In row 0 Hlt)). lia.
    + rewrite nth_overflow in Hpos by exact Hge. lia.
Qed.

Lemma HOR_is_zero_exactly_off_react_species_witness :
  (nth_error (get_HOR [[1; 0]; [0; 0]]) 1 = Some 0
   <-> ~ In 1%nat (react_species [[1; 0]; [0; 0]])).
Proof.
  apply (HOR_is_zero_exactly_off_react_species [[1; 0]; [0; 0]] 1 [0; 0]).
  - repeat constructor.
  - repeat constructor; lia.
  - reflexivity.
Defined.

(** X11.  For a rectangular matrix of non-negative coefficients whose reactions
    are of order 3 at most, [get_HOR] gives one entry per species, each one
    of 0, 1, 2, 3, -2, -3, -32. *)
Theorem get_HOR_values (R : matrix) :
  rectangular R -> nonnegative R ->
  Forall (fun o => o <= 3) (sum_axis0 R) ->
  length (get_HOR R) = length R
  /\ Forall (fun h => In h [0; 1; 2; 3; -2; -3; -32]) (get_HOR R).
Proof.
  intros Hrect Hnn Hord. unfold get_HOR. split; [apply length_map |].
  apply Forall_forall. intros h Hh. apply in_map_iff in Hh.
  destruct Hh as [row [<- Hin]].
  destruct (HOR_of_cases (sum_axis0 R) row) as [[_ E] | [Hne Hcase]].
  - rewrite E. simpl. auto.
  - destruct Hcase as [E | [E | [E | E]]]; rewrite E; simpl; auto 8.
    pose proof (np_max_In _ Hne) as Hmem.
    pose proof (reactant_order_positive R row Hrect Hnn Hin _ Hmem) as Hlo.
    apply this_orders_In in Hmem. destruct Hmem as [j [_ Ej]].
    assert (nth j (sum_axis0 R) 0 <= 3) as Hhi.
    { destruct (Nat.lt_ge_cases j (length (sum_axis0 R))) as [Hlt | Hge].
      - rewrite Forall_forall in Hord. apply Hord. apply nth_In. exact Hlt.
      - rewrite nth_overflow by exact Hge. lia. }
    rewrite <- Ej in Hhi.
    assert (np_max (take 0 (sum_axis0 R)
                      (where_ (map (fun c => 0 <? c) row))) = 1
            \/ np_max (take 0 (sum_axis0 R)
                         (where_ (map (fun c => 0 <? c) row))) = 2
            \/ np_max (take 0 (sum_axis0 R)
                         (where_ (map (fun c => 0 <? c) row))) = 3)
      as [-> | [-> | ->]] by lia; auto 8.
Qed.

Lemma get_HOR_values_witness :
  length (get_HOR [[3; 0; 1]; [0; 2; 1]; [0; 0; 0]]) = 3%nat
  /\ Forall (fun h => In h [0; 1; 2; 3; -2; -3; -32])
            (get_HOR [[3; 0; 1]; [0; 2; 1]; [0; 0; 0]]).
Proof.
  apply (get_HOR_values [[3; 0; 1]; [0; 2; 1]; [0; 0; 0]]).
  - repeat constructor.
  - repeat constructor; lia.
  - repeat constructor; vm_compute; discriminate.
Defined.

Lemma g_factor_is_set (h : Z) (xi : f64) (g : option f64) :
  0 < h \/ h = -2 \/ h = -32 \/ h = -3 ->
  exists v, g_factor h xi g = Some v.
Proof.
  intros H. unfold g_factor.
  destruct (0 <? h) eqn:E0; [eexists; reflexivity |].
  apply Z.ltb_ge in E0.
  destruct H as [H | [-> | [-> | ->]]]; [lia | | |]; simpl.
  - eexists; reflexivity.
  - eexists; reflexivity.
  - destruct (not_in xi [1; 2]); eexists; reflexivity.
Qed.

Lemma react_species_HOR (R : matrix) (s : nat) :
  rectangular R -> nonnegative R -> In s (react_species R) ->
  0 < nth s (get_HOR R) 0
  \/ nth s (get_HOR R) 0 = -2
  \/ nth s (get_HOR R) 0 = -32
  \/ nth s (get_HOR R) 0 = -3.
Proof.
  intros Hrect Hnn Hs.
  unfold react_species, sum_axis1 in Hs.
  rewrite where_In, !nth_error_map in Hs.
  destruct (nth_error R s) as [row |] eqn:Erow; [| discriminate].
  simpl in Hs. injection Hs as Hs. apply Z.ltb_lt in Hs.
  assert (nth_error (get_HOR R) s = Some (HOR_of (sum_axis0 R) row)) as Hget
    by (unfold get_HOR; rewrite nth_error_map, Erow; reflexivity).
  rewrite (nth_error_nth _ _ _ Hget).
  apply HOR_of_reactant; auto.
  eapply nth_error_In. exact Erow.
Qed.

Lemma species_loop_runs (v : matrix) (HOR : list Z) (x prop : list f64)
    (not_crit : list bool) (ss : list nat) (acc : moments) :
  (forall s, In s ss ->
     0 < nth s HOR 0 \/ nth s HOR 0 = -2 \/ nth s HOR 0 = -32
     \/ nth s HOR 0 = -3) ->
  exists m, species_loop v HOR x prop not_crit acc ss = Some m.
Proof.
  revert acc. induction ss as [| s ss IH]; intros acc H.
  - exists acc. reflexivity.
  - simpl. unfold species_pass.
    destruct (g_factor_is_set (nth s HOR 0) (nth s x (Fin 0)) (g_now acc)
                (H s (or_introl eq_refl))) as [gv ->].
    apply IH. intros s' Hs'. apply H. right. exact Hs'.
Qed.

(** X12.  For a rectangular reactant matrix of non-negative coefficients the
    if/elif chain always sets [g] before it is read: the candidate step
    never fails on an unbound [g], whatever the state. *)
Theorem candidate_never_reads_g_unbound (rng : Type) (a : Engine.args)
    (s : Engine.st rng) (prop : list f64) (not_crit : list bool) :
  rectangular (Engine.react_stoic a) ->
  nonnegative (Engine.react_stoic a) ->
  Engine.candidate rng a (get_HOR (Engine.react_stoic a)) s prop not_crit
  <> inl Engine.UnboundLocalError.
Proof.
  intros Hrect Hnn. unfold Engine.candidate.
  destruct (none_set not_crit); [discriminate |].
  destruct (species_loop_runs
              (net_stoic (Engine.react_stoic a) (Engine.prod_stoic a))
              (get_HOR (Engine.react_stoic a))
              (nth (Engine.ite s - 1) (Engine.x s) []) prop not_crit
              (react_species (Engine.react_stoic a))
              {| mup := []; sigp := []; tau_num := [];
                 g_now := Engine.g s |}) as [m ->].
  - intros s' Hs'. apply react_species_HOR; assumption.
  - destruct (taup_of m); discriminate.
Qed.

Lemma candidate_never_reads_g_unbound_witness :
  Engine.candidate Scripted.rng (decay 40 (Fin 1) 3)
    (get_HOR [[1]])
    (Engine.entry_state Scripted.rng Scripted.seed_rng
       (decay 40 (Fin 1) 3) [Fin 40] 2)
    [Fin 40] [true]
  <> inl Engine.UnboundLocalError.
Proof.
  apply (candidate_never_reads_g_unbound Scripted.rng (decay 40 (Fin 1) 3)).
  - repeat constructor.
  - repeat constructor; lia.
Defined.

(** When [g] can stay unbound: with a negative reactant coefficient a
    reaction can have order 0, a species that takes part in it gets the
    value 0 although [react_species] visits it, and the first pass of the
    loop reads [g] before anything set it. *)
Example unbound_g_with_a_negative_coefficient :
  get_HOR [[1]; [-1]] = [0; 0]
  /\ react_species [[1]; [-1]] = [O]
  /\ species_loop [[-1]; [1]] (get_HOR [[1]; [-1]]) [Fin 5; Fin 5]
                  [Fin 1] [true]
                  {| mup := []; sigp := []; tau_num := []; g_now := None |}
                  (react_species [[1]; [-1]])
     = None.
Proof. repeat split; vm_compute; reflexivity. Qed.

(* ------------------------------------------------------------------ *)
(** * Further properties of the propensities *)

Lemma Qred_zero (q : Q) : (q == 0)%Q -> Qred q = 0%Q.
Proof. intros H. rewrite (Qred_complete q 0 H). reflexivity. Qed.

Lemma fmul_zero_l (z b : Q) : (z == 0)%Q -> fmul (Fin z) (Fin b) = Fin 0.
Proof.
  intros H. unfold fmul. f_equal. apply Qred_zero. rewrite H. ring.
Qed.

Lemma fmul_zero_r (a z : Q) : (z == 0)%Q -> fmul (Fin a) (Fin z) = Fin 0.
Proof.
  intros H. unfold fmul. f_equal. apply Qred_zero. rewrite H. ring.
Qed.

Lemma fpow_pos_finite (a : Q) (n : nat) : exists q, fpow_pos (Fin a) n = Fin q.
Proof.
  induction n as [| n [q IH]]; simpl.
  - exists 1%Q. reflexivity.
  - rewrite IH. eexists. reflexivity.
Qed.

Lemma fpow_finite (a : Q) (e : Z) : 0 <= e -> exists q, fpow (Fin a) e = Fin q.
Proof.
  intros He. unfold fpow.
  destruct (Z.ltb_spec e 0) as [Hlt | _]; [lia |].
  apply fpow_pos_finite.
Qed.

(** [0 ** e = 0] for a positive exponent. *)
Lemma fpow_of_zero (z : Q) (e : Z) :
  (z == 0)%Q -> 0 < e -> fpow (Fin z) e = Fin 0.
Proof.
  intros Hz He. unfold fpow.
  destruct (Z.ltb_spec e 0) as [Hlt | _]; [lia |].
  destruct (Z.to_nat e) as [| n] eqn:En; [lia |].
  simpl. destruct (fpow_pos_finite z n) as [q ->].
  apply fmul_zero_l. exact Hz.
Qed.

Lemma propensity_stays_zero (R : matrix) (x : list f64) (j : nat) :
  nonnegative R ->
  Forall (fun a => finite a = true) x ->
  propensity R x j (Fin 0) = Fin 0.
Proof.
  unfold propensity. intros Hnn. revert x.
  induction Hnn as [| row R Hrow Hnn IH]; intros x Hx; [reflexivity |].
  destruct Hx as [| xi x Hxi Hx]; [reflexivity |].
  destruct xi as [b | | |]; try discriminate.
  cbn [combine fold_left fst snd].
  destruct (fpow_finite b (nth j row 0) (nth_nonneg row j Hrow)) as [q ->].
  rewrite fmul_zero_l by reflexivity.
  apply IH. exact Hx.
Qed.

(** In exact arithmetic a reaction that needs a species of which there is
    none has propensity 0, whatever its rate constant and the other
    populations (all finite): [0 ** k = 0] for [k > 0].  In float64 this
    needs the other factors to stay in range; the section on the range of
    float64 adds that. *)
Theorem absent_reactant_gives_zero_propensity (R : matrix) (x : list f64)
    (i j : nat) (row : list Z) (xi : f64) (k : Q) :
  nonnegative R ->
  Forall (fun a => finite a = true) x ->
  nth_error R i = Some row ->
  nth_error x i = Some xi ->
  feqb xi (Fin 0) = true ->
  0 < nth j row 0 ->
  propensity R x j (Fin k) = Fin 0.
Proof.
  intros Hnn Hx. revert x Hx i k.
  induction Hnn as [| r R Hr Hnn IH]; intros x Hx i k Hrow Hxi Hz Hpos.
  - destruct i; discriminate.
  - destruct Hx as [| a x Ha Hx]; [destruct i; discriminate |].
    destruct a as [b | | |]; try discriminate.
    unfold propensity. cbn [combine fold_left fst snd].
    destruct i as [| i]; simpl in Hrow, Hxi.
    + injection Hrow as ->. injection Hxi as <-.
      simpl in Hz. apply Qeq_bool_iff in Hz.
      rewrite (fpow_of_zero b _ Hz Hpos).
      rewrite fmul_zero_r by reflexivity.
      apply (propensity_stays_zero R x j Hnn Hx).
    + destruct (fpow_finite b (nth j r 0) (nth_nonneg r j Hr)) as [q ->].
      cbn [fmul].
      apply (IH x Hx i _ Hrow Hxi Hz Hpos).
Qed.

Lemma absent_reactant_gives_zero_propensity_witness :
  propensity [[1; 0]; [1; 1]] [Fin 7; Fin 0] 0 (Fin 3) = Fin 0.
Proof.
  apply (absent_reactant_gives_zero_propensity
           [[1; 0]; [1; 1]] [Fin 7; Fin 0] 1 0 [1; 1] (Fin 0) 3).
  - repeat constructor; lia.
  - repeat constructor.
  - reflexivity.
  - reflexivity.
  - reflexivity.
  - reflexivity.
Defined.

(* ------------------------------------------------------------------ *)
(** * The classifier against its documentation *)

Lemma take_where_is_filter (row orders pre : list Z) :
  length orders = length row ->
  take 0 (pre ++ orders)
       (where_from (length pre) (map (fun c => 0 <? c) row))
  = map fst (filter (fun oc => 0 <? snd oc) (combine orders row)).
Proof.
  revert orders pre.
  induction row as [| c row IH]; intros [| o orders] pre Hlen;
    simpl in Hlen; try discriminate; [reflexivity |].
  injection Hlen as Hlen.
  assert (take 0 (pre ++ o :: orders)
               (where_from (S (length pre)) (map (fun c => 0 <? c) row))
          = map fst (filter (fun oc => 0 <? snd oc) (combine orders row)))
    as Hrest.
  { replace (pre ++ o :: orders) with ((pre ++ [o]) ++ orders)
      by (rewrite <- app_assoc; reflexivity).
    replace (S (length pre)) with (length (pre ++ [o]))
      by (rewrite length_app; simpl; lia).
    apply IH. exact Hlen. }
  simpl. destruct (0 <? c); simpl.
  - rewrite nth_middle. f_equal. exact Hrest.
  - exact Hrest.
Qed.

Lemma this_orders_is_mine (orders row : list Z) :
  length orders = length row ->
  take 0 orders (where_ (map (fun c => 0 <? c) row))
  = map fst (filter (fun oc => 0 <? snd oc) (combine orders row)).
Proof. intros H. exact (take_where_is_filter row orders [] H). Qed.

Lemma In_combine_nth (orders row : list Z) (o c : Z) :
  length orders = length row ->
  (In (o, c) (combine orders row)
   <-> exists j, (j < length row)%nat /\ nth j orders 0 = o
                 /\ nth j row 0 = c).
Proof.
  intros Hlen. split.
  - intros H. destruct (In_nth _ _ (0, 0) H) as [j [Hj E]].
    rewrite length_combine, Hlen, Nat.min_id in Hj.
    rewrite combine_nth in E by exact Hlen.
    injection E as E1 E2. exists j. auto.
  - intros [j [Hj [<- <-]]].
    rewrite <- (combine_nth orders row j 0 0 Hlen).
    apply nth_In. rewrite length_combine, Hlen, Nat.min_id. exact Hj.
Qed.

(** Whether the species has coefficient [c] in a reaction of order [o] it
    is a reactant of, as the documented classification asks. *)
Lemma has_spec (orders row : list Z) (o c : Z) :
  length orders = length row ->
  existsb (fun oc => (fst oc =? o) && (snd oc =? c))
          (filter (fun oc => 0 <? snd oc) (combine orders row)) = true
  <-> 0 < c /\ exists j, (j < length row)%nat /\ nth j orders 0 = o
                         /\ nth j row 0 = c.
Proof.
  intros Hlen. rewrite existsb_exists. split.
  - intros [[o' c'] [Hin Hoc]]. simpl in Hoc.
    apply andb_true_iff in Hoc. destruct Hoc as [Ho Hc].
    apply Z.eqb_eq in Ho. apply Z.eqb_eq in Hc. subst o' c'.
    apply filter_In in Hin. destruct Hin as [Hin Hpos]. simpl in Hpos.
    apply Z.ltb_lt in Hpos. split; [exact Hpos |].
    apply In_combine_nth; assumption.
  - intros [Hpos Hj]. exists (o, c). split.
    + apply filter_In. split; [apply In_combine_nth; assumption |].
      simpl. apply Z.ltb_lt. exact Hpos.
    + simpl. rewrite !Z.eqb_refl. reflexivity.
Qed.

(** The test for the code -2: among the reactions of order 2, the largest
    coefficient of the species is 2. *)
Lemma order_2_test (R : matrix) (row : list Z) :
  rectangular R -> nonnegative R -> In row R ->
  let orders := sum_axis0 R in
  let order_2_indices := where_ (map (fun o => o =? 2) orders) in
  ((0 <? length order_2_indices)%nat
   && (np_max (take 0 row order_2_indices) =? 2)) = true
  <-> exists j, (j < length row)%nat /\ nth j orders 0 = 2
                /\ nth j row 0 = 2.
Proof.
  intros Hrect Hnn Hin orders idx.
  assert (length orders = length row) as Hlen.
  { unfold orders, sum_axis0. rewrite length_map, length_seq.
    unfold rectangular in Hrect. rewrite Forall_forall in Hrect.
    symmetry. auto. }
  assert (forall j, In j idx <-> (j < length row)%nat /\ nth j orders 0 = 2)
    as Hidx.
  { intros j. unfold idx. rewrite where_In, nth_error_map. split.
    - intros H. destruct (nth_error orders j) as [o |] eqn:E;
        [| discriminate].
      simpl in H. injection H as H. apply Z.eqb_eq in H. subst o.
      split; [rewrite <- Hlen; apply nth_error_Some; congruence |].
      apply nth_error_nth. exact E.
    - intros [Hj E]. rewrite <- Hlen in Hj.
      rewrite (nth_error_nth' orders 0 Hj), E. reflexivity. }
  rewrite andb_true_iff, Nat.ltb_lt, Z.eqb_eq. split.
  - intros [Hne Hmax].
    assert (take 0 row idx <> []) as Hne'.
    { unfold take. destruct idx; [simpl in Hne; lia | discriminate]. }
    pose proof (np_max_In _ Hne') as Hmem. rewrite Hmax in Hmem.
    apply in_map_iff in Hmem.
    destruct Hmem as [j [Ej Hj]]. apply Hidx in Hj.
    exists j. tauto.
  - intros [j [Hj [Eo Ec]]].
    assert (In j idx) as Hjin by (apply Hidx; auto).
    split; [destruct idx; [destruct Hjin | simpl; lia] |].
    assert (In 2 (take 0 row idx)) as H2
      by (unfold take; apply in_map_iff; exists j; auto).
    assert (take 0 row idx <> []) as Hne'
      by (intros E; rewrite E in H2; destruct H2).
    pose proof (np_max_In _ Hne') as Hmem.
    assert (np_max (take 0 row idx) <= 2) as Hle.
    { apply in_map_iff in Hmem.
      destruct Hmem as [j' [E' Hj']]. apply Hidx in Hj'.
      destruct Hj' as [_ E2]. rewrite <- E', <- E2.
      apply coefficient_le_order; assumption. }
    assert (2 <= np_max (take 0 row idx)) as Hge.
    { destruct (take 0 row idx) as [| a r]; [congruence |].
      destruct (fold_max_spec r a) as [_ [Ha Hall]].
      destruct H2 as [<- | H2]; [exact Ha | exact (Hall _ H2)]. }
    lia.
Qed.

(** One species, away from order 3. *)
Lemma HOR_of_as_documented (R : matrix) (row : list Z) :
  rectangular R -> nonnegative R -> In row R ->
  (forall j, 0 < nth j row 0 -> nth j (sum_axis0 R) 0 <> 3) ->
  HOR_of (sum_axis0 R) row = HOR_documented (sum_axis0 R) row.
Proof.
  intros Hrect Hnn Hin Hno3.
  assert (length (sum_axis0 R) = length row) as Hlen.
  { unfold sum_axis0. rewrite length_map, length_seq.
    unfold rectangular in Hrect. rewrite Forall_forall in Hrect.
    symmetry. auto. }
  pose proof (order_2_test R row Hrect Hnn Hin) as Htest.
  pose proof (has_spec (sum_axis0 R) row 2 2 Hlen) as Hhas.
  cbv zeta in Htest.
  assert (forall o,
            In o (take 0 (sum_axis0 R) (where_ (map (fun c => 0 <? c) row)))
            -> o <> 3) as Hmem3.
  { intros o Ho. apply this_orders_In in Ho.
    destruct Ho as [j [Hpos ->]]. auto. }
  unfold HOR_of, HOR_documented.
  set (idx := where_ (map (fun o => o =? 2) (sum_axis0 R))) in *.
  set (b1 := (0 <? length idx)%nat) in *.
  set (b2 := np_max (take 0 row idx) =? 2) in *.
  rewrite (this_orders_is_mine _ _ Hlen) in *.
  set (mine := filter (fun oc => 0 <? snd oc) (combine (sum_axis0 R) row))
    in *.
  set (b3 := existsb (fun oc => (fst oc =? 2) && (snd oc =? 2)) mine) in *.
  assert (b1 && b2 = b3) as Hb.
  { apply eq_true_iff_eq. rewrite Htest, Hhas. split.
    - intros H. split; [lia | exact H].
    - intros [_ H]. exact H. }
  destruct mine as [| p rest] eqn:Emine; [reflexivity |].
  cbn [map length Nat.eqb].
  set (h := np_max (fst p :: map fst rest)) in *.
  assert ((h =? 3) = false) as Hh3.
  { apply Z.eqb_neq. apply Hmem3. apply np_max_In. discriminate. }
  rewrite <- Hb. clear Hb Htest Hhas.
  destruct (Z.eqb_spec h 1) as [E1 | E1];
    destruct (Z.eqb_spec h 2) as [E2 | E2];
    try (exfalso; lia);
    destruct b1, b2; cbn [andb];
    rewrite ?Hh3; change (-2 =? 3) with false; cbn [andb];
    reflexivity.
Qed.

(** X14.  Away from order 3 the classifier does what its documentation says: for
    a species that is a reactant of no third-order reaction, [get_HOR]
    gives 0, the highest order, or the code -2, as documented. *)
Theorem HOR_as_documented_below_order_3 (R : matrix) (i : nat)
    (row : list Z) :
  rectangular R -> nonnegative R ->
  nth_error R i = Some row ->
  (forall j, 0 < nth j row 0 -> nth j (sum_axis0 R) 0 <> 3) ->
  nth_error (get_HOR R) i = nth_error (get_HOR_documented R) i.
Proof.
  intros Hrect Hnn Hrow Hno3. unfold get_HOR, get_HOR_documented.
  rewrite !nth_error_map, Hrow. simpl. f_equal.
  apply HOR_of_as_documented; auto.
  eapply nth_error_In. exact Hrow.
Qed.

Lemma HOR_as_documented_below_order_3_witness :
  nth_error (get_HOR [[2; 1; 0]; [0; 1; 1]; [0; 0; 2]]) 0
  = nth_error (get_HOR_documented [[2; 1; 0]; [0; 1; 1]; [0; 0; 2]]) 0.
Proof.
  apply (HOR_as_documented_below_order_3
           [[2; 1; 0]; [0; 1; 1]; [0; 0; 2]] 0 [2; 1; 0]).
  - repeat constructor.
  - repeat constructor; lia.
  - reflexivity.
  - intros [| [| [| j]]] H1 H2;
      [vm_compute in H2; discriminate
      | vm_compute in H2; discriminate
      | vm_compute in H1; discriminate
      | destruct j; vm_compute in H1; discriminate].
Defined.

(** X15.  A network without third-order reactions is classified as
    documented. *)
Theorem get_HOR_as_documented_without_order_3 (R : matrix) :
  rectangular R -> nonnegative R ->
  Forall (fun o => o <> 3) (sum_axis0 R) ->
  get_HOR R = get_HOR_documented R.
Proof.
  intros Hrect Hnn Hno3. unfold get_HOR, get_HOR_documented.
  apply map_ext_in. intros row Hin.
  apply HOR_of_as_documented; auto.
  intros j _.
  destruct (Nat.lt_ge_cases j (length (sum_axis0 R))) as [Hlt | Hge].
  - rewrite Forall_forall in Hno3. apply Hno3. apply nth_In. exact Hlt.
  - rewrite nth_overflow by exact Hge. discriminate.
Qed.

Lemma get_HOR_as_documented_without_order_3_witness :
  get_HOR [[2; 1; 0]; [0; 1; 1]; [0; 0; 0]]
  = get_HOR_documented [[2; 1; 0]; [0; 1; 1]; [0; 0; 0]].
Proof.
  apply (get_HOR_as_documented_without_order_3
           [[2; 1; 0]; [0; 1; 1]; [0; 0; 0]]).
  - repeat constructor.
  - repeat constructor; lia.
  - repeat constructor; vm_compute; discriminate.
Defined.

(* ------------------------------------------------------------------ *)
(** * The further properties on the scripted collaborators *)

Lemma firing_counts_are_counts_witness :
  Forall (fun k => 0 <= k) [1; 1]
  /\ length [1; 1] = length [Fin 3; Fin 2].
Proof.
  apply (firing_counts_are_counts Scripted.rng Scripted.poisson
           (Fin 1) (Some 1) [true; false] [Fin 3; Fin 2] 0 0%nat 1%nat).
  - intros lam g k g' H. unfold Scripted.poisson in H.
    destruct (flt lam (Fin 0) || is_nan lam); [discriminate |].
    injection H as <- _. lia.
  - reflexivity.
  - reflexivity.
Defined.

Lemma critical_reactions_fire_at_most_once_witness :
  nth_error [1; 1; 0] 1 = Some 1.
Proof.
  apply (critical_reactions_fire_at_most_once Scripted.rng Scripted.poisson
           (Fin 1) (Some 1) [true; false; false] [Fin 3; Fin 2; Fin 4]
           0 0%nat 1%nat [1; 1; 0] 1).
  - reflexivity.
  - reflexivity.
  - simpl. lia.
Defined.

Lemma returned_trajectory_shape_witness :
  exists x0,
    Engine.first_row 1 [40] = Some x0
    /\ Engine.trajectory_shape 3 x0 [Fin 0; Fin 0; Fin 0]
                               [[Fin 40]; [Fin 40]; [Fin 0]].
Proof.
  apply (returned_trajectory_shape Scripted.rng Scripted.seed_rng
           Scripted.rand Scripted.poisson Scripted.np_log Scripted.get_kstoc
           Scripted.roulette_selection Scripted.direct_naive
           1 (decay 40 (Fin 1) 3) O
           [Fin 0; Fin 0; Fin 0] [[Fin 40]; [Fin 40]; [Fin 0]] 2).
  vm_compute. reflexivity.
Defined.

Lemma leap_into_last_slot_raises_witness :
  exists e,
    Engine.leap Scripted.rng Scripted.rand Scripted.poisson Scripted.np_log
      Scripted.roulette_selection (decay 5 (Fin 1) 2)
      (Engine.entry_state Scripted.rng Scripted.seed_rng
         (decay 5 (Fin 1) 2) [Fin 5] 1)
      [Fin 5] (Fin 5) [false] HIGH
    = Engine.Done (Engine.Raises e).
Proof.
  apply (leap_into_last_slot_raises Scripted.rng Scripted.rand
           Scripted.poisson Scripted.np_log Scripted.roulette_selection).
  reflexivity.
Defined.

Lemma tau_adaptive_ends_witness :
  Engine.ended (Scripted.run 10 (decay 5 (Fin 1) 10) O) = true.
Proof.
  unfold Scripted.run.
  exact (tau_adaptive_ends Scripted.rng Scripted.seed_rng
           Scripted.rand Scripted.poisson Scripted.np_log Scripted.get_kstoc
           Scripted.roulette_selection Scripted.direct_naive
           ltac:(intros; simpl; discriminate)
           (decay 5 (Fin 1) 10) O).
Defined.

Lemma tau_adaptive_status_witness :
  3 = -2 \/ 3 = 1 \/ 3 = 2 \/ 3 = 3.
Proof.
  apply (tau_adaptive_status Scripted.rng Scripted.seed_rng
           Scripted.rand Scripted.poisson Scripted.np_log Scripted.get_kstoc
           Scripted.roulette_selection Scripted.direct_naive
           1 (two_decays (Fin 1) 2) O [Fin 0] [[Fin 5; Fin 0]] 3).
  vm_compute. reflexivity.
Defined.

Lemma leaps_never_report_the_time_budget_witness :
  Engine.tau_adaptive Scripted.rng Scripted.seed_rng Scripted.rand
    Scripted.poisson Scripted.np_log Scripted.get_kstoc
    Scripted.roulette_selection Scripted.direct_naive_1
    6 (decay 5 (Fin (1 # 100)) 10) O
  = Engine.Returns
      [Fin 0; Fin (693147 # 5000000); Fin (6238323 # 20000000);
       Fin (10859303 # 20000000); Fin (17790773 # 20000000);
       Fin (31653713 # 20000000)]
      [[Fin 5]; [Fin 4]; [Fin 3]; [Fin 2]; [Fin 1]; [Fin 0]] 3
  /\ 3 <> 2.
Proof.
  assert (Engine.tau_adaptive Scripted.rng Scripted.seed_rng Scripted.rand
            Scripted.poisson Scripted.np_log Scripted.get_kstoc
            Scripted.roulette_selection Scripted.direct_naive_1
            6 (decay 5 (Fin (1 # 100)) 10) O
          = Engine.Returns
              [Fin 0; Fin (693147 # 5000000); Fin (6238323 # 20000000);
               Fin (10859303 # 20000000); Fin (17790773 # 20000000);
               Fin (31653713 # 20000000)]
              [[Fin 5]; [Fin 4]; [Fin 3]; [Fin 2]; [Fin 1]; [Fin 0]] 3)
    as Hrun by (vm_compute; reflexivity).
  split; [exact Hrun |].
  exact (leaps_never_report_the_time_budget Scripted.rng Scripted.seed_rng
           Scripted.rand Scripted.poisson Scripted.np_log Scripted.get_kstoc
           Scripted.roulette_selection Scripted.direct_naive_1
           ltac:(intros; simpl; discriminate)
           6 (decay 5 (Fin (1 # 100)) 10) O
           [Fin 0; Fin (693147 # 5000000); Fin (6238323 # 20000000);
            Fin (10859303 # 20000000); Fin (17790773 # 20000000);
            Fin (31653713 # 20000000)]
           [[Fin 5]; [Fin 4]; [Fin 3]; [Fin 2]; [Fin 1]; [Fin 0]] 3
           eq_refl Hrun).
Defined.

Lemma stuck_at_entry_witness :
  Scripted.run 5
    (call [[1; 0]; [0; 1]] [[0; 0]; [0; 0]] [5; 0] [Fin 0; Fin 0] 10
          (Fin 1) 4) O
  = Engine.Returns [Fin 0] [[Fin 5; Fin 0]] (-2).
Proof.
  unfold Scripted.run.
  apply (stuck_at_entry Scripted.rng Scripted.seed_rng
           Scripted.rand Scripted.poisson Scripted.np_log Scripted.get_kstoc
           Scripted.roulette_selection Scripted.direct_naive
           5 3
           (call [[1; 0]; [0; 1]] [[0; 0]; [0; 0]] [5; 0] [Fin 0; Fin 0] 10
                 (Fin 1) 4) O [Fin 5; Fin 0]);
    reflexivity.
Defined.

(* ------------------------------------------------------------------ *)
(** * A reaction that consumes nothing *)

Lemma select_none {A} (a : list A) (mask : list bool) :
  Forall (fun b => b = false) mask -> select a mask = [].
Proof.
  unfold select. intros H. revert a.
  induction H as [| b mask Hb H IH]; intros [| h a]; simpl; auto.
  rewrite Hb. apply IH.
Qed.

Lemma no_quotients (v : matrix) (x : list f64) (j : nat) :
  Forall (fun c => 0 <= c) (column v j) -> quotients v x j = [].
Proof.
  intros H. unfold quotients. rewrite select_none; [reflexivity |].
  apply Forall_map. eapply Forall_impl; [| exact H].
  intros c Hc. apply Z.ltb_ge. exact Hc.
Qed.

Lemma all_some_None {A} (l : list (option A)) :
  In None l -> all_some l = None.
Proof.
  induction l as [| [a |] l IH]; simpl; intros H.
  - contradiction.
  - destruct H as [H | H]; [discriminate |]. rewrite (IH H). reflexivity.
  - reflexivity.
Qed.

Lemma L_vector_raises (v : matrix) (x : list f64) (nr j : nat) :
  (j < nr)%nat ->
  Forall (fun c => 0 <= c) (column v j) ->
  L_vector v x nr = None.
Proof.
  intros Hj H. unfold L_vector. apply all_some_None.
  apply in_map_iff. exists j. split.
  - unfold L_of. rewrite (no_quotients v x j H). reflexivity.
  - apply in_seq. lia.
Qed.

Section Consumption.
Import Engine.
Variable rng : Type.
Variable seed_rng : Z -> rng.
Variable rand : rng -> f64 * rng.
Variable poisson : f64 -> rng -> option Z * rng.
Variable np_log : f64 -> f64.
Variable get_kstoc : matrix -> list f64 -> f64 -> bool -> list f64.
Variable roulette_selection : list f64 -> list f64 -> rng -> Z * rng.
Variable direct_naive :
  matrix -> matrix -> list f64 -> list f64 -> f64 -> nat -> f64 -> Z -> bool ->
  rng -> (list f64 * list (list f64) * Z) * rng.

Local Abbreviation tau_adaptive :=
  (Engine.tau_adaptive rng seed_rng rand poisson np_log get_kstoc
                       roulette_selection direct_naive).
Local Abbreviation iteration :=
  (Engine.iteration rng rand poisson np_log roulette_selection direct_naive).

(** C4.  A network with a reaction [j] that consumes no species (no
    negative entry in column [j] of [prod_stoic - react_stoic]): on every
    iteration whose total propensity is not below 1e-30, the quotients of
    reaction [j] form an empty array, [np.nanmin] raises on it, and the
    iteration ends with ValueError; no reaction is classified. *)
Theorem no_consumption_raises (a : args) (kstoc : list f64) (HOR : list Z)
    (s : st rng) (j : nat) :
  (j < shape1 (react_stoic a))%nat ->
  Forall (fun c => 0 <= c)
         (column (net_stoic (react_stoic a) (prod_stoic a)) j) ->
  flt (fsum (propensities (react_stoic a) kstoc (nth (ite s - 1) (x s) [])))
      tiny = false ->
  iteration a kstoc HOR s = Done (Raises ValueError).
Proof.
  intros Hj Hc Hp. unfold Engine.iteration.
  rewrite Hp, (L_vector_raises _ _ _ j Hj Hc). reflexivity.
Qed.

(** The source and the sink, from 5 molecules: the first iteration
    raises. *)
Lemma source_and_sink_raises (fuel n : nat) (ambient : rng) (max_t : f64) :
  get_kstoc [[0; 1]] [Fin 1; Fin 1] (Fin 1) false = [Fin 1; Fin 1] ->
  tau_adaptive (S fuel) (source_and_sink max_t (S (S n))) ambient
  = Raises ValueError.
Proof.
  intros Hk.
  rewrite (tau_adaptive_enters_loop rng seed_rng rand poisson np_log
             get_kstoc roulette_selection direct_naive (S fuel) (S n)
             (source_and_sink max_t (S (S n))) ambient
             [Fin 5] [Fin 1; Fin 1] eq_refl eq_refl Hk eq_refl).
  rewrite loop_unfold by reflexivity.
  reflexivity.
Qed.

End Consumption.

Lemma no_consumption_raises_witness :
  Engine.iteration Scripted.rng Scripted.rand Scripted.poisson
    Scripted.np_log Scripted.roulette_selection Scripted.direct_naive
    (source_and_sink (Fin 10) 3) [Fin 1; Fin 1] [1]
    (Engine.entry_state Scripted.rng Scripted.seed_rng
       (source_and_sink (Fin 10) 3) [Fin 5] 2)
  = Engine.Done (Engine.Raises Engine.ValueError).
Proof.
  apply (no_consumption_raises Scripted.rng Scripted.rand Scripted.poisson
           Scripted.np_log Scripted.roulette_selection Scripted.direct_naive
           (source_and_sink (Fin 10) 3) [Fin 1; Fin 1] [1]
           (Engine.entry_state Scripted.rng Scripted.seed_rng
              (source_and_sink (Fin 10) 3) [Fin 5] 2) 0%nat).
  - simpl. lia.
  - repeat constructor. simpl. lia.
  - reflexivity.
Defined.

(* ------------------------------------------------------------------ *)
(** * The seed and the collaborators' draws *)

Section Rivals.
Import Engine.
Variable rng : Type.
Variable seed_rng : Z -> rng.
Variable rand : rng -> f64 * rng.
Variable poisson : f64 -> rng -> option Z * rng.
Variable np_log : f64 -> f64.
Variable get_kstoc : matrix -> list f64 -> f64 -> bool -> list f64.
Variable roulette_selection : list f64 -> list f64 -> rng -> Z * rng.
Variable direct_naive :
  matrix -> matrix -> list f64 -> list f64 -> f64 -> nat -> f64 -> Z -> bool ->
  rng -> (list f64 * list (list f64) * Z) * rng.

Local Abbreviation tau_adaptive :=
  (Engine.tau_adaptive rng seed_rng rand poisson np_log get_kstoc
                       roulette_selection direct_naive).


End Rivals.

Section Seeding.
Import Engine.
Variable W : Type.
Variable np_seed : Z -> W -> W.
Variable rand : W -> f64 * W.
Variable poisson : f64 -> W -> option Z * W.
Variable np_log : f64 -> f64.
Variable get_kstoc : matrix -> list f64 -> f64 -> bool -> list f64.
Variable roulette_selection : list f64 -> list f64 -> W -> Z * W.
Variable direct_naive :
  matrix -> matrix -> list f64 -> list f64 -> f64 -> nat -> f64 -> Z -> bool ->
  W -> (list f64 * list (list f64) * Z) * W.

Local Abbreviation tau_adaptive_in :=
  (Process.tau_adaptive_in W np_seed rand poisson np_log get_kstoc
                           roulette_selection direct_naive).

(** The process state enters a call only through the state that
    [np.random.seed(seed)] leaves: two calls with the same arguments,
    started where seeding leaves the same state, end alike. *)
Lemma same_state_after_seeding (f1 f2 : nat) (a : args) (w1 w2 : W) :
  np_seed (seed a) w1 = np_seed (seed a) w2 ->
  tau_adaptive_in w1 f1 a <> OutOfFuel ->
  tau_adaptive_in w2 f2 a <> OutOfFuel ->
  tau_adaptive_in w1 f1 a = tau_adaptive_in w2 f2 a.
Proof.
  unfold Process.tau_adaptive_in. intros Hs H1 H2.
  assert (Engine.tau_adaptive W (fun s => np_seed s w2) rand poisson np_log
            get_kstoc roulette_selection direct_naive f2 a w2
          = Engine.tau_adaptive W (fun s => np_seed s w1) rand poisson
              np_log get_kstoc roulette_selection direct_naive f2 a w1)
    as E.
  { unfold Engine.tau_adaptive. rewrite Hs. reflexivity. }
  rewrite E in H2 |- *.
  apply tau_adaptive_reproducible; assumption.
Qed.


End Seeding.


(* ------------------------------------------------------------------ *)
(** * The propensity loop within the range of float64 *)






Section Magnitudes.

Variables K M : Z.
Hypothesis K_nonneg : 0 <= K.
Hypothesis M_positive : 1 <= M.



End Magnitudes.

Lemma last_products (fs : list f64) (p d : f64) :
  last (products p fs) d = fold_left fmul fs p.
Proof.
  revert p. induction fs as [| f r IH]; intros p; [reflexivity |].
  cbn [fold_left]. rewrite <- (IH (fmul p f)).
  destruct r; reflexivity.
Qed.

(** The last value of the trace is the propensity. *)
Lemma propensity_ends_the_trace (R : matrix) (x : list f64) (j : nat)
    (k : f64) :
  last (propensity_trace R x j k) k = propensity R x j k.
Proof.
  unfold propensity_trace, propensity, factors. rewrite last_products.
  generalize (combine R x) as l. intros l. revert k.
  induction l as [| rx l IH]; intros k; [reflexivity |].
  cbn [map fold_left]. apply IH.
Qed.


